(** * The DHCP IPAM daemon of cni-plugins: lease registry, persistence,
      startup reconciliation and packet exchange

    A shallow embedding of
    - [plugins/ipam/dhcp/persist.go]  ([PersistedLeased], [LoadSavedLeases],
      [PersistActiveLeases]),
    - the daemon ([DHCP], [newDHCP], [generateClientID], [Allocate],
      [Release], [getLease], [setLease], [clearLease]),
    - the packet helpers ([DhcpSendDiscoverPacket], [DhcpSendRequest],
      [DhcpRequest]),
    followed by the properties proved about them.

    Go strings are byte strings ([string], one [ascii] per byte), the lease
    registry [map[string]*DHCPLease] is a [gmap string DHCPLease], and the
    effects of the daemon (the mutex, the lease file, the log, calls into the
    lease workers) are threaded through an explicit [World]. *)

From Stdlib Require Import ZArith Lia List Strings.String Strings.Ascii.
From stdpp Require Import base option list gmap strings fin_maps.

Local Open Scope string_scope.
Local Open Scope list_scope.
Local Open Scope nat_scope.

(** ** Go strings *)

Module GoString.

(** [len(s)]: the number of bytes of [s]. *)
Definition len (s : string) : nat := String.length s.

(** [s[0:n]] for [n <= len(s)]: the first [n] bytes of [s]. *)
Definition slice_to (n : nat) (s : string) : string := String.substring 0 n s.

End GoString.

(** ** Client identifiers *)

(** [generateClientID]: the logical id [containerID/netName/ifName], cut to
    the 254 bytes an RFC 2132 option can carry. *)
Definition generateClientID (containerID netName ifName : string) : string :=
  let clientID := containerID +:+ "/" +:+ netName +:+ "/" +:+ ifName in
  if Nat.ltb 254 (GoString.len clientID)
  then GoString.slice_to 254 clientID
  else clientID.

(** ** Errors, time, bytes *)

(** A Go [error] value.  A nil error is [None : option error].  The dynamic
    type matters where the code tests it: [ns.NSPathNotExistErr] by a type
    assertion, a Kubernetes not-found status by [k8serrors.IsNotFound].
    [fmt.Errorf] with the verb [%v] builds a fresh error of neither type; it
    is kept symbolically as its format string, its string arguments and the
    error it prints. *)
Inductive error : Type :=
  | LibError (msg : string)
  | NSPathNotExistErr (msg : string)
  | StatusNotFound (msg : string)
  | Errorf (format : string) (args : list string) (cause : error).

(** [k8serrors.IsNotFound]. *)
Definition IsNotFound (err : option error) : bool :=
  match err with
  | Some (StatusNotFound _) => true
  | _ => false
  end.

(** The type assertion [err.(ns.NSPathNotExistErr)]. *)
Definition is_NSPathNotExistErr (err : error) : bool :=
  match err with
  | NSPathNotExistErr _ => true
  | _ => false
  end.

(** [time.Time] as an instant and [time.Duration], both in nanoseconds. *)
Definition Time : Type := Z.
Definition Duration : Type := Z.

(** [dhcp4.Packet] is a [[]byte]; a byte is a [Z] in [0, 256). *)
Definition Packet : Type := list Z.

(** [dhcp4.Options] is a [map[OptionCode][]byte]. *)
Definition Options : Type := gmap Z (list Z).

(** ** Data model of the daemon *)

(** A [netlink.Link], read through [Attrs()]. *)
Record Link : Type := mkLink {
  Attrs_Name : string;
  Attrs_Index : Z
}.

(** Modelled from the spec: the declaration of [DHCPLease] is not among the
    sources; these are the fields that [LoadSavedLeases] initialises and
    [PersistActiveLeases] reads (identity, binding, workload identity and
    timing of the spec's Lease).  The [stop] channel, fresh for every lease,
    carries no data and is left out. *)
Record DHCPLease : Type := mkLease {
  clientID : string;
  ack : option Packet;
  link : Link;
  renewalTime : Time;
  rebindingTime : Time;
  expireTime : Time;
  timeout : Duration;
  resendMax : Duration;
  lease_broadcast : bool;
  k8sNamespace : string;
  k8sPodName : string;
  netNs : string
}.

(** [PersistedLeased] of persist.go. *)
Record PersistedLeased : Type := mkPersisted {
  ClientID : string;
  Ack : option Packet;
  LinkName : string;
  RenewalTime : Time;
  RebindingTime : Time;
  ExpireTime : Time;
  K8sNamespace : string;
  K8sPodName : string;
  NetNs : string
}.

(** [IPAMArgs]. *)
Record IPAMArgs : Type := mkIPAMArgs {
  IgnoreUnknown : bool;
  K8S_POD_NAME : string;
  K8S_POD_NAMESPACE : string;
  K8S_POD_INFRA_CONTAINER_ID : string
}.

(** [skel.CmdArgs]. *)
Record CmdArgs : Type := mkCmdArgs {
  ContainerID : string;
  Netns : string;
  IfName : string;
  Args : string;
  Path : string;
  StdinData : string
}.

(** Modelled from the spec: the daemon's [NetConf] is not among the sources;
    the network name and the IPAM section with its provided and requested
    option sets, which are all that [Allocate] and [Release] read. *)
Record NetConf (ProvideOption RequestOption : Type) : Type := mkNetConf {
  NetConf_Name : string;
  IPAM_ProvideOptions : list ProvideOption;
  IPAM_RequestOptions : list RequestOption
}.
Arguments mkNetConf {_ _} _ _ _.
Arguments NetConf_Name {_ _} _.
Arguments IPAM_ProvideOptions {_ _} _.
Arguments IPAM_RequestOptions {_ _} _.

(** [current.Result], as far as [Allocate] fills it. *)
Record IPNet : Type := mkIPNet { IPNet_IP : list Z; IPNet_Mask : list Z }.
Record IPConfig : Type := mkIPConfig { Address : IPNet; Gateway : list Z }.
Record Route : Type := mkRoute { Route_Dst : IPNet; Route_GW : list Z }.
Record Result : Type := mkResult { IPs : list IPConfig; Routes : list Route }.

(** The [DHCP] daemon object.  Its mutex [mux] lives in the [World] trace
    and its [k8sClient] in the environment. *)
Record DHCP : Type := mkDHCP {
  leases : gmap string DHCPLease;
  hostNetnsPrefix : string;
  clientTimeout : Duration;
  clientResendMax : Duration;
  broadcast : bool
}.

Definition with_leases (d : DHCP) (m : gmap string DHCPLease) : DHCP :=
  {| leases := m;
     hostNetnsPrefix := hostNetnsPrefix d;
     clientTimeout := clientTimeout d;
     clientResendMax := clientResendMax d;
     broadcast := broadcast d |}.

Definition savedLeaseLocation : string := "/run/dhcp-leases.json".

(** ** The world the daemon acts on *)

(** Observable steps, in program order.  [EvInsert], [EvDelete] and
    [EvPersist] mark the two registry mutations and the entry into
    [PersistActiveLeases] with the snapshot it collected; the others are the
    calls that leave the daemon. *)
Inductive Event : Type :=
  | EvLock
  | EvUnlock
  | EvInsert (id : string)
  | EvDelete (id : string)
  | EvPersist (fileName : string) (leasesToSave : list PersistedLeased)
  | EvWriteFile (fileName : string) (data : string) (err : option error)
  | EvPrintf (format : string) (args : list string) (err : option error)
  | EvLogPrintf (format : string) (err : error)
  | EvAcquireLease (id hostNetns ifName : string)
  | EvStartMaintaining (l : DHCPLease)
  | EvStop (l : DHCPLease).

(** The file system (path to content), the fault that every write meets
    ([None]: writes succeed; a failed write leaves the file as it was), and
    the trace so far, oldest event first. *)
Record World : Type := mkWorld {
  files : gmap string string;
  write_fault : option error;
  trace : list Event
}.

(** Whether [d.mux] is held after the events of a trace. *)
Definition mutex_held (tr : list Event) : bool :=
  fold_left (λ held e,
    match e with
    | EvLock => true
    | EvUnlock => false
    | _ => held
    end) tr false.

Definition is_mutation (e : Event) : bool :=
  match e with
  | EvInsert _ | EvDelete _ => true
  | _ => false
  end.

(** Reading on from a mutation: is a persistence attempt met before the
    mutex is released? *)
Fixpoint persist_precedes_unlock (tr : list Event) : bool :=
  match tr with
  | [] => false
  | EvPersist _ _ :: _ => true
  | EvUnlock :: _ => false
  | _ :: tr' => persist_precedes_unlock tr'
  end.

(** Every mutation of the trace is followed by a persistence attempt before
    the mutex is released. *)
Fixpoint persisted_before_unlock (tr : list Event) : bool :=
  match tr with
  | [] => true
  | e :: tr' =>
      (if is_mutation e then persist_precedes_unlock tr' else true)
      && persisted_before_unlock tr'
  end.

(** Reading on from a mutation: is a persistence attempt met at all? *)
Fixpoint persist_follows (tr : list Event) : bool :=
  match tr with
  | [] => false
  | EvPersist _ _ :: _ => true
  | _ :: tr' => persist_follows tr'
  end.

(** The world after some more events. *)
Definition add_trace (w : World) (evs : list Event) : World :=
  {| files := files w; write_fault := write_fault w; trace := trace w ++ evs |}.

(** A state monad over the world; Go's [(value, error)] results stay in the
    returned value. *)
Definition M (A : Type) : Type := World → A * World.

#[global] Instance M_ret : MRet M := λ A a w, (a, w).
#[global] Instance M_bind : MBind M :=
  λ A B k m w, let '(a, w') := m w in k a w'.

Definition emit (e : Event) : M unit :=
  λ w, (tt, {| files := files w; write_fault := write_fault w;
               trace := trace w ++ [e] |}).

(** [ioutil.ReadFile]. *)
Definition ReadFile (fileName : string) : M (string * option error) :=
  λ w, match files w !! fileName with
       | Some data => ((data, None), w)
       | None => (("", Some (LibError "no such file or directory")), w)
       end.

(** [ioutil.WriteFile]. *)
Definition WriteFile (fileName data : string) : M (option error) :=
  λ w, match write_fault w with
       | None =>
           (None, {| files := <[fileName := data]> (files w);
                     write_fault := None;
                     trace := trace w ++ [EvWriteFile fileName data None] |})
       | Some err =>
           (Some err, {| files := files w;
                         write_fault := Some err;
                         trace := trace w ++ [EvWriteFile fileName data (Some err)] |})
       end.

(** ** The environment: libraries and the parts of the daemon outside
       these sources *)

(** What the daemon calls and does not define: [encoding/json], the
    network-namespace and netlink libraries, the orchestrator client, the
    lease worker ([AcquireLease], [StartMaintaining], [IPNet], [Gateway],
    [Routes]; [Stop] is only an event), option negotiation ([LoadArgs],
    [prepareOptions]) and the order in which the Go runtime ranges over the
    registry, which is some permutation of its entries. *)
Class Env : Type := {
  ProvideOption : Type;
  RequestOption : Type;
  json_Marshal : list PersistedLeased → string + error;
  json_Unmarshal_leases : string → list PersistedLeased * option error;
  json_Unmarshal_conf : string → NetConf ProvideOption RequestOption + error;
  ns_GetNS : string → option error;
  netlink_LinkByName : string → string → Link + error;
  Pods_Get : string → string → option error;
  StartMaintaining : DHCPLease → option error;
  AcquireLease : string → string → string → Options → Options → IPAMArgs →
                 Duration → Duration → bool → DHCPLease + error;
  lease_IPNet : DHCPLease → IPNet + error;
  lease_Gateway : DHCPLease → list Z;
  lease_Routes : DHCPLease → list Route;
  LoadArgs : string → IPAMArgs + error;
  prepareOptions : string → list ProvideOption → list RequestOption →
                   Options * Options + error;
  range_leases : gmap string DHCPLease → list (string * DHCPLease);
  range_leases_perm : ∀ m, range_leases m ≡ₚ map_to_list m
}.

Section Daemon.

Context `{env : Env}.

(** [ns.WithNetNSPath]: [GetNS] fails on a path that is missing
    ([NSPathNotExistErr]) or is not a namespace; otherwise the closure runs
    inside the namespace and its result is returned. *)
Definition WithNetNSPath {A : Type} (nspath : string)
    (toRun : string → A + error) : A + error :=
  match ns_GetNS nspath with
  | Some err => inr err
  | None => toRun nspath
  end.

(** *** persist.go *)

(** The composite literal of [LoadSavedLeases], with the link the closure
    stored. *)
Definition reloaded_lease (lease : PersistedLeased) (lnk : Link)
    (timeout resendMax : Duration) (broadcast : bool) : DHCPLease :=
  {| clientID := ClientID lease;
     ack := Ack lease;
     link := lnk;
     renewalTime := RenewalTime lease;
     rebindingTime := RebindingTime lease;
     expireTime := ExpireTime lease;
     timeout := timeout;
     resendMax := resendMax;
     lease_broadcast := broadcast;
     k8sNamespace := K8sNamespace lease;
     k8sPodName := K8sPodName lease;
     netNs := NetNs lease |}.

(** The loop of [LoadSavedLeases] over the parsed records. *)
Fixpoint LoadSavedLeases_loop (timeout resendMax : Duration) (broadcast : bool)
    (leases : list PersistedLeased) (reloadedLeases : list DHCPLease)
    : M (list DHCPLease * option error) :=
  match leases with
  | [] => mret (reloadedLeases, None)
  | lease :: rest =>
      match WithNetNSPath (NetNs lease) (λ netns,
              match netlink_LinkByName netns (LinkName lease) with
              | inr err =>
                  inr (Errorf "error looking up %q: %v" [LinkName lease] err)
              | inl lnk => inl lnk
              end) with
      | inr err =>
          if is_NSPathNotExistErr err then
            _ ← emit (EvPrintf
                   "Container %s/%s does not seem to have a working netns. Skipping"
                   [K8sNamespace lease; K8sPodName lease] None);
            LoadSavedLeases_loop timeout resendMax broadcast rest reloadedLeases
          else
            mret ([], Some (Errorf
                   "couldn't look up link '%s' in container netns '%s': %v"
                   [LinkName lease; NetNs lease] err))
      | inl lnk =>
          LoadSavedLeases_loop timeout resendMax broadcast rest
            (reloadedLeases ++
               [reloaded_lease lease lnk timeout resendMax broadcast])
      end
  end.

(** [LoadSavedLeases].  The error of [json.Unmarshal] is assigned and never
    read; the loop runs over whatever was decoded. *)
Definition LoadSavedLeases (leaseFile : string) (timeout resendMax : Duration)
    (broadcast : bool) : M (list DHCPLease * option error) :=
  '(file, err) ← ReadFile leaseFile;
  match err with
  | Some e => mret ([], Some e)
  | None =>
      let '(leases, _) := json_Unmarshal_leases file in
      LoadSavedLeases_loop timeout resendMax broadcast leases []
  end.

(** The composite literal of [PersistActiveLeases]. *)
Definition persisted_of (v : DHCPLease) : PersistedLeased :=
  {| ClientID := clientID v;
     Ack := ack v;
     LinkName := Attrs_Name (link v);
     RenewalTime := renewalTime v;
     RebindingTime := rebindingTime v;
     ExpireTime := expireTime v;
     K8sNamespace := k8sNamespace v;
     K8sPodName := k8sPodName v;
     NetNs := netNs v |}.

(** The first loop of [PersistActiveLeases]: one record per registry entry,
    in the order the runtime ranges over the map. *)
Definition snapshot (leases : gmap string DHCPLease) : list PersistedLeased :=
  (λ kv, persisted_of kv.2) <$> range_leases leases.

(** [PersistActiveLeases].  A failed write is logged and [nil] returned;
    only an error of [json.Marshal] is returned. *)
Definition PersistActiveLeases (fileName : string)
    (leases : gmap string DHCPLease) : M (option error) :=
  let leasesToSave := snapshot leases in
  _ ← emit (EvPersist fileName leasesToSave);
  match json_Marshal leasesToSave with
  | inr err => mret (Some err)
  | inl b =>
      err ← WriteFile fileName b;
      match err with
      | Some e => _ ← emit (EvLogPrintf "Error while saving: %v" e); mret None
      | None => mret None
      end
  end.

(** *** The daemon *)

Definition getLease (d : DHCP) (clientID : string) : M (option DHCPLease) :=
  _ ← emit EvLock;
  let l := leases d !! clientID in
  _ ← emit EvUnlock;
  mret l.

Definition setLease (d : DHCP) (clientID : string) (l : DHCPLease) : M DHCP :=
  _ ← emit EvLock;
  _ ← emit (EvInsert clientID);
  let d := with_leases d (<[clientID := l]> (leases d)) in
  _ ← emit EvUnlock;
  mret d.

Definition clearLease (d : DHCP) (clientID : string) : M DHCP :=
  _ ← emit EvLock;
  _ ← emit (EvDelete clientID);
  let d := with_leases d (delete clientID (leases d)) in
  err ← PersistActiveLeases savedLeaseLocation (leases d);
  _ ← match err with
      | Some e => emit (EvPrintf "Failed to persist: %v" [] (Some e))
      | None => mret tt
      end;
  _ ← emit EvUnlock;
  mret d.

(** The loop of [newDHCP] over the loaded leases. *)
Fixpoint newDHCP_loop (leases : list DHCPLease) (dhcp : DHCP)
    : M (DHCP + error) :=
  match leases with
  | [] => mret (inl dhcp)
  | val :: rest =>
      let insert_and_maintain : M (DHCP + error) :=
        dhcp ← setLease dhcp (clientID val) val;
        _ ← emit (EvStartMaintaining val);
        match StartMaintaining val with
        | Some err =>
            mret (inr (Errorf "failed to start maintaining lease: %v" [] err))
        | None => newDHCP_loop rest dhcp
        end in
      if decide (k8sPodName val ≠ "") then
        let err := Pods_Get (k8sNamespace val) (k8sPodName val) in
        if IsNotFound err then
          _ ← emit (EvPrintf
                 "Pod %s wasn't found running on the cluster. Removing.\n"
                 [k8sPodName val] None);
          newDHCP_loop rest dhcp
        else
          match err with
          | Some e => mret (inr e)
          | None => insert_and_maintain
          end
      else insert_and_maintain
  end.

(** [newDHCP].  [hostNetnsPrefix] and [broadcast] are left at their zero
    values here; [runDaemon] sets them afterwards. *)
Definition newDHCP (clientTimeout clientResendMax : Duration)
    (broadcast : bool) : M (option DHCP * option error) :=
  '(loaded, err) ← LoadSavedLeases savedLeaseLocation
                      clientTimeout clientResendMax broadcast;
  let dhcp := {| leases := ∅;
                 hostNetnsPrefix := "";
                 clientTimeout := clientTimeout;
                 clientResendMax := clientResendMax;
                 broadcast := false |} in
  _ ← match err with
      | Some e => emit (EvPrintf "Failed to load leases: %v%n" [] (Some e))
      | None => mret tt
      end;
  r ← newDHCP_loop loaded dhcp;
  match r with
  | inr e => mret (None, Some e)
  | inl dhcp =>
      err ← PersistActiveLeases savedLeaseLocation (leases dhcp);
      match err with
      | Some e => mret (None, Some e)
      | None => mret (Some dhcp, None)
      end
  end.

(** [Allocate].  The result object is written only on the path that
    returns [nil]. *)
Definition Allocate (d : DHCP) (args : CmdArgs) (result : Result)
    : M (DHCP * Result * option error) :=
  match json_Unmarshal_conf (StdinData args) with
  | inr err =>
      mret (d, result, Some (Errorf "error parsing netconf: %v" [] err))
  | inl conf =>
  match LoadArgs (Args args) with
  | inr err =>
      mret (d, result, Some (Errorf "failed to parse args: %v" [] err))
  | inl ipamArgs =>
  match prepareOptions (Args args) (IPAM_ProvideOptions conf)
                       (IPAM_RequestOptions conf) with
  | inr err => mret (d, result, Some err)
  | inl (optsRequesting, optsProviding) =>
      let clientID :=
        generateClientID (ContainerID args) (NetConf_Name conf) (IfName args) in
      let hostNetns := hostNetnsPrefix d +:+ Netns args in
      _ ← emit (EvAcquireLease clientID hostNetns (IfName args));
      match AcquireLease clientID hostNetns (IfName args)
              optsRequesting optsProviding ipamArgs
              (clientTimeout d) (clientResendMax d) (broadcast d) with
      | inr err => mret (d, result, Some err)
      | inl l =>
          match lease_IPNet l with
          | inr err => _ ← emit (EvStop l); mret (d, result, Some err)
          | inl ipn =>
              d ← setLease d clientID l;
              err ← PersistActiveLeases savedLeaseLocation (leases d);
              match err with
              | Some e =>
                  _ ← emit (EvPrintf "Failed to persist: %v" [] (Some e));
                  mret (d, result, Some e)
              | None =>
                  mret (d,
                        {| IPs := [ {| Address := ipn;
                                       Gateway := lease_Gateway l |} ];
                           Routes := lease_Routes l |},
                        None)
              end
          end
      end
  end end end.

(** [Release]. *)
Definition Release (d : DHCP) (args : CmdArgs) : M (DHCP * option error) :=
  match json_Unmarshal_conf (StdinData args) with
  | inr err => mret (d, Some (Errorf "error parsing netconf: %v" [] err))
  | inl conf =>
      let clientID :=
        generateClientID (ContainerID args) (NetConf_Name conf) (IfName args) in
      ol ← getLease d clientID;
      match ol with
      | Some l =>
          _ ← emit (EvStop l);
          d ← clearLease d clientID;
          mret (d, None)
      | None => mret (d, None)
      end
  end.

(** *** Vocabulary of the properties *)

(** The lease file holds exactly the records of the registry: its content is
    the serialisation of one record per registry entry. *)
Definition file_reflects (w : World) (d : DHCP) : Prop :=
  ∃ recs b,
    recs ≡ₚ (persisted_of <$> (map_to_list (leases d)).*2) ∧
    json_Marshal recs = inl b ∧
    files w !! savedLeaseLocation = Some b.

(** Events that neither touch the mutex nor the registry nor a lease worker:
    file writes and log lines. *)
Definition is_output (e : Event) : bool :=
  match e with
  | EvWriteFile _ _ _ | EvLogPrintf _ _ | EvPrintf _ _ _ => true
  | _ => false
  end.

Definition is_log (e : Event) : bool :=
  match e with
  | EvLogPrintf _ _ | EvPrintf _ _ _ => true
  | _ => false
  end.

(** A reloaded lease is equivalent to the one persisted: every persisted
    field is preserved and the link is the one its name resolves to inside
    the lease's namespace. *)
Definition same_persisted_fields (v v' : DHCPLease) : Prop :=
  clientID v' = clientID v ∧ ack v' = ack v ∧
  renewalTime v' = renewalTime v ∧ rebindingTime v' = rebindingTime v ∧
  expireTime v' = expireTime v ∧
  k8sNamespace v' = k8sNamespace v ∧ k8sPodName v' = k8sPodName v ∧
  netNs v' = netNs v.

Definition reloaded_from (v v' : DHCPLease) : Prop :=
  same_persisted_fields v v' ∧
  netlink_LinkByName (netNs v) (Attrs_Name (link v)) = inl (link v').

(** The namespace of a record can be entered and its link resolves there. *)
Definition loadable (lease : PersistedLeased) : Prop :=
  ns_GetNS (NetNs lease) = None ∧
  ∃ lnk, netlink_LinkByName (NetNs lease) (LinkName lease) = inl lnk.

(** The namespace path of a record no longer exists. *)
Definition netns_gone (lease : PersistedLeased) : Prop :=
  ∃ msg, ns_GetNS (NetNs lease) = Some (NSPathNotExistErr msg).

(** The namespace of a record exists but its link cannot be resolved. *)
Definition link_unresolved (lease : PersistedLeased) : Prop :=
  ns_GetNS (NetNs lease) = None ∧
  ∃ err, netlink_LinkByName (NetNs lease) (LinkName lease) = inr err.

(** The link a record resolves to, when its namespace can be entered and
    holds a link of that name; and the leases that the records of a file give
    back, one for each record that resolves. *)
Definition resolve (lease : PersistedLeased) : option Link :=
  match ns_GetNS (NetNs lease) with
  | Some _ => None
  | None =>
      match netlink_LinkByName (NetNs lease) (LinkName lease) with
      | inl lnk => Some lnk
      | inr _ => None
      end
  end.

Definition survivors (timeout resendMax : Duration) (broadcast : bool)
    (recs : list PersistedLeased) : list DHCPLease :=
  omap (λ lease,
          (λ lnk, reloaded_lease lease lnk timeout resendMax broadcast)
            <$> resolve lease) recs.

(** The line [LoadSavedLeases] prints when it skips a record. *)
Definition skip_log (lease : PersistedLeased) : Event :=
  EvPrintf "Container %s/%s does not seem to have a working netns. Skipping"
           [K8sNamespace lease; K8sPodName lease] None.

(** Startup reconciliation keeps a lease that carries no workload identity
    or whose workload the orchestrator does not report as not found. *)
Definition carries_workload (val : DHCPLease) : Prop := k8sPodName val ≠ "".

Definition kept_at_startup (val : DHCPLease) : bool :=
  if decide (k8sPodName val ≠ "")
  then negb (IsNotFound (Pods_Get (k8sNamespace val) (k8sPodName val)))
  else true.

(** The registry after inserting a list of leases in order. *)
Definition insert_all (ls : list DHCPLease) (m : gmap string DHCPLease)
    : gmap string DHCPLease :=
  foldl (λ m val, <[clientID val := val]> m) m ls.

(** What the loop of [newDHCP] leaves in the trace for one lease when it
    goes on to the next one. *)
Definition startup_events (val : DHCPLease) : list Event :=
  if kept_at_startup val
  then [EvLock; EvInsert (clientID val); EvUnlock; EvStartMaintaining val]
  else [EvPrintf "Pod %s wasn't found running on the cluster. Removing.\n"
                 [k8sPodName val] None].

(** The daemon object [newDHCP] starts from, and the line it logs when
    [LoadSavedLeases] returned an error. *)
Definition empty_DHCP (clientTimeout clientResendMax : Duration) : DHCP :=
  {| leases := ∅;
     hostNetnsPrefix := "";
     clientTimeout := clientTimeout;
     clientResendMax := clientResendMax;
     broadcast := false |}.

Definition load_failure_log (lerr : option error) : list Event :=
  match lerr with
  | Some e => [EvPrintf "Failed to load leases: %v%n" [] (Some e)]
  | None => []
  end.

(** The orchestrator query for a lease fails with an error other than
    not-found. *)
Definition orchestrator_fails (val : DHCPLease) : Prop :=
  carries_workload val ∧
  ∃ e, Pods_Get (k8sNamespace val) (k8sPodName val) = Some e ∧
       IsNotFound (Some e) = false.

End Daemon.

(** ** Packet exchange *)

Module Dhcp4.

(** Constants of the [dhcp4] library. *)
Definition Pad : Z := 0.
Definition End : Z := 255.
Definition OptionDHCPMessageType : Z := 53.
Definition ACK : Z := 5.
Definition minSize : nat := 272.

(** [Packet.AddOption]: drop the trailing End byte, append the option code,
    the length byte and the value, and a new End.  On an empty packet the
    slice expression that drops the last byte panics ([None]). *)
Definition AddOption (p : Packet) (o : Z) (value : list Z) : option Packet :=
  match p with
  | [] => None
  | _ :: _ =>
      Some (removelast p
              ++ [o; (Z.of_nat (length value) mod 256)%Z] ++ value ++ [End])
  end.

(** [Packet.PadToMinSize]: zero bytes up to the minimum length. *)
Definition PadToMinSize (p : Packet) : Packet :=
  if Nat.ltb (length p) minSize
  then p ++ repeat 0%Z (minSize - length p)
  else p.

(** [Packet.ParseOptions]: the options area starts at byte 240; reading
    stops at End, at a truncated option or when fewer than two bytes are
    left; Pad bytes are skipped; a repeated code keeps its last value. *)
Fixpoint parse_loop (fuel : nat) (opts : list Z) (options : Options) : Options :=
  match fuel with
  | O => options
  | S fuel =>
      match opts with
      | code :: (size :: rest) as opts1 =>
          if decide (code = End) then options
          else if decide (code = Pad) then parse_loop fuel opts1 options
          else if Nat.ltb (length rest) (Z.to_nat size) then options
          else parse_loop fuel (drop (Z.to_nat size) rest)
                 (<[code := take (Z.to_nat size) rest]> options)
      | _ => options
      end
  end.

Definition ParseOptions (p : Packet) : Options :=
  parse_loop (length p) (drop 240 p) ∅.

End Dhcp4.

Module Dhcp.

Import Dhcp4.

(** The [dhcp4client.Client] as the helpers use it: the packets it builds
    and the outcome of each send and receive. *)
Record Client : Type := mkClient {
  DiscoverPacket : Packet;
  RequestPacket : Packet → Packet;
  SendPacket : Packet → option error;
  GetOffer : Packet → Packet * option error;
  GetAcknowledgement : Packet → Packet * option error
}.

(** The order in which one [range] statement visits an option dictionary.
    Go leaves it unspecified: any permutation of the entries, and not
    necessarily the same one at the next [range]. *)
Definition RangeOrder : Type := Options → list (Z * list Z).

Definition valid_order (order : RangeOrder) : Prop :=
  ∀ options, order options ≡ₚ map_to_list options.

(** [for opt, data := range options { packet.AddOption(opt, data) }]. *)
Definition range_AddOption (order : RangeOrder) (options : Options)
    (packet : Packet) : option Packet :=
  foldl (λ acc kv, p ← acc; AddOption p kv.1 kv.2) (Some packet)
        (order options).

Definition DhcpSendDiscoverPacket (c : Client) (options : Options)
    (order : RangeOrder) : option (Packet * option error) :=
  discoveryPacket ← range_AddOption order options (DiscoverPacket c);
  let discoveryPacket := PadToMinSize discoveryPacket in
  Some (discoveryPacket, SendPacket c discoveryPacket).

Definition DhcpSendRequest (c : Client) (options : Options)
    (offerPacket : Packet) (order : RangeOrder)
    : option (Packet * option error) :=
  requestPacket ← range_AddOption order options (RequestPacket c offerPacket);
  let requestPacket := PadToMinSize requestPacket in
  Some (requestPacket, SendPacket c requestPacket).


(** The message type a reply carries, if any. *)
Definition message_type (p : Packet) : option Z :=
  match ParseOptions p !! OptionDHCPMessageType with
  | Some (t :: _) => Some t
  | _ => None
  end.

(** The bytes one option adds to a packet: code, length, value. *)
Definition tlv (kv : Z * list Z) : list Z :=
  [kv.1; (Z.of_nat (length kv.2) mod 256)%Z] ++ kv.2.

(** A packet with the given options appended in the given order. *)
Definition with_options (packet : Packet) (entries : list (Z * list Z))
    : Packet :=
  match entries with
  | [] => packet
  | _ :: _ => removelast packet ++ mjoin (tlv <$> entries) ++ [End]
  end.

(** Both assemblies of the module, from one dictionary and one order. *)
Definition assembled (c : Client) (options : Options) (offerPacket : Packet)
    (order : RangeOrder)
    : option (Packet * option error) * option (Packet * option error) :=
  (DhcpSendDiscoverPacket c options order,
   DhcpSendRequest c options offerPacket order).

(** A client to evaluate the helpers on.  Its Discover and Request packets
    are the 240-byte BOOTP header with the magic cookie, the message-type
    option and End; the server it talks to answers every request with the
    given reply. *)
Definition header : Packet :=
  [1; 1; 6; 0]%Z ++ repeat 0%Z 232 ++ [99; 130; 83; 99]%Z.

Definition reply_with (messageType : Z) : Packet :=
  [2; 1; 6; 0]%Z ++ repeat 0%Z 232 ++ [99; 130; 83; 99]%Z
    ++ [53; 1; messageType; 255]%Z.

Definition client_of (reply : Packet) : Client :=
  {| DiscoverPacket := header ++ [53; 1; 1; 255]%Z;
     RequestPacket := λ _, header ++ [53; 1; 3; 255]%Z;
     SendPacket := λ _, None;
     GetOffer := λ _, (reply_with 2, None);
     GetAcknowledgement := λ _, (reply, None) |}.

Definition two_options : Options :=
  {[ 12%Z := [104]%Z; 60%Z := [99]%Z ]}.

Definition ascending : RangeOrder := map_to_list.
Definition descending : RangeOrder := λ options, reverse (map_to_list options).

End Dhcp.

(** ** A concrete node *)

(** One node to evaluate the daemon on: three containers, a pod that is
    running, one that is gone and one whose query times out, and a table of
    the few lease files that occur.  The JSON text of a file is abbreviated
    to a tag, and the standard input of a request to its network name. *)
Module Node.

Local Open Scope Z_scope.

#[global] Instance PersistedLeased_eq_dec : EqDecision PersistedLeased.
Proof. solve_decision. Defined.

Definition ack1 : Packet := [2; 1; 6; 0]%Z.

Definition eth0 : Link := {| Attrs_Name := "eth0"; Attrs_Index := 2 |}.

Definition lease_of (id podName netns : string) : DHCPLease :=
  {| clientID := id;
     ack := Some ack1;
     link := eth0;
     renewalTime := 1800;
     rebindingTime := 3150;
     expireTime := 3600;
     timeout := 10;
     resendMax := 62;
     lease_broadcast := false;
     k8sNamespace := "default";
     k8sPodName := podName;
     netNs := netns |}.

Definition lease1 : DHCPLease :=
  lease_of "c1/mynet/eth0" "web-1" "/var/run/netns/c1".
Definition lease2 : DHCPLease :=
  lease_of "c2/mynet/eth0" "gone-1" "/var/run/netns/c2".
Definition lease4 : DHCPLease :=
  lease_of "c4/mynet/eth0" "slow-1" "/var/run/netns/c1".

Definition rec_of (l : DHCPLease) (linkName : string) : PersistedLeased :=
  {| ClientID := clientID l;
     Ack := ack l;
     LinkName := linkName;
     RenewalTime := renewalTime l;
     RebindingTime := rebindingTime l;
     ExpireTime := expireTime l;
     K8sNamespace := k8sNamespace l;
     K8sPodName := k8sPodName l;
     NetNs := netNs l |}.

Definition rec1 : PersistedLeased := rec_of lease1 "eth0".
Definition rec2 : PersistedLeased := rec_of lease2 "eth0".
Definition rec3 : PersistedLeased := rec_of lease2 "net9".
Definition rec4 : PersistedLeased := rec_of lease4 "eth0".

(** The lease files of this node and the records they decode to. *)
Definition file_table : list (string * list PersistedLeased) :=
  [ ("null", []);
    ("[c1]", [rec1]);
    ("[c1,c2]", [rec1; rec2]);
    ("[c1,c2/net9]", [rec1; rec3]);
    ("[c1,c4]", [rec1; rec4]) ].

Fixpoint text_of (table : list (string * list PersistedLeased))
    (recs : list PersistedLeased) : option string :=
  match table with
  | [] => None
  | (text, recs') :: table =>
      if decide (recs' = recs) then Some text else text_of table recs
  end.

Fixpoint records_of (table : list (string * list PersistedLeased))
    (text : string) : option (list PersistedLeased) :=
  match table with
  | [] => None
  | (text', recs) :: table =>
      if decide (text' = text) then Some recs else records_of table text
  end.

Definition node_Marshal (recs : list PersistedLeased) : string + error :=
  match text_of file_table recs with
  | Some text => inl text
  | None => inr (LibError "json: unsupported value")
  end.

Definition node_Unmarshal_leases (text : string)
    : list PersistedLeased * option error :=
  match records_of file_table text with
  | Some recs => (recs, None)
  | None => ([], Some (LibError "unexpected end of JSON input"))
  end.

Definition node_Unmarshal_conf (stdin : string) : NetConf string string + error :=
  if decide (stdin = "")
  then inr (LibError "unexpected end of JSON input")
  else inl (mkNetConf stdin [] []).

Definition node_GetNS (nspath : string) : option error :=
  if decide (nspath = "/var/run/netns/c1") then None
  else if decide (nspath = "/var/run/netns/c2") then None
  else Some (NSPathNotExistErr "failed to Statfs: no such file or directory").

Definition node_LinkByName (netns name : string) : Link + error :=
  if decide (name = "eth0") then inl eth0 else inr (LibError "Link not found").

Definition node_Pods_Get (namespace name : string) : option error :=
  if decide (name = "gone-1") then Some (StatusNotFound "pods not found")
  else if decide (name = "slow-1") then Some (LibError "context deadline exceeded")
  else None.

Definition node_AcquireLease (id hostNetns ifName : string)
    (optsRequesting optsProviding : Options) (ipamArgs : IPAMArgs)
    (timeout resendMax : Duration) (broadcast : bool) : DHCPLease + error :=
  if decide (ifName = "eth0")
  then inl {| clientID := id;
              ack := Some ack1;
              link := eth0;
              renewalTime := 1800;
              rebindingTime := 3150;
              expireTime := 3600;
              timeout := timeout;
              resendMax := resendMax;
              lease_broadcast := broadcast;
              k8sNamespace := K8S_POD_NAMESPACE ipamArgs;
              k8sPodName := K8S_POD_NAME ipamArgs;
              netNs := hostNetns |}
  else inr (LibError "Link not found").

Definition node_LoadArgs (args : string) : IPAMArgs + error :=
  inl {| IgnoreUnknown := false;
         K8S_POD_NAME := "web-1";
         K8S_POD_NAMESPACE := "default";
         K8S_POD_INFRA_CONTAINER_ID := "c1" |}.

Definition node : Env := {|
  ProvideOption := string;
  RequestOption := string;
  json_Marshal := node_Marshal;
  json_Unmarshal_leases := node_Unmarshal_leases;
  json_Unmarshal_conf := node_Unmarshal_conf;
  ns_GetNS := node_GetNS;
  netlink_LinkByName := node_LinkByName;
  Pods_Get := node_Pods_Get;
  StartMaintaining := λ _, None;
  AcquireLease := node_AcquireLease;
  lease_IPNet := λ _, inl {| IPNet_IP := [10; 0; 0; 5]%Z;
                             IPNet_Mask := [255; 255; 255; 0]%Z |};
  lease_Gateway := λ _, [10; 0; 0; 1]%Z;
  lease_Routes := λ _, [];
  LoadArgs := node_LoadArgs;
  prepareOptions := λ _ _ _, inl (∅, ∅);
  range_leases := map_to_list;
  range_leases_perm := λ m, reflexivity (map_to_list m)
|}.

Definition daemon (m : gmap string DHCPLease) : DHCP :=
  {| leases := m;
     hostNetnsPrefix := "";
     clientTimeout := 10;
     clientResendMax := 62;
     broadcast := false |}.

Definition args1 : CmdArgs :=
  {| ContainerID := "c1";
     Netns := "/var/run/netns/c1";
     IfName := "eth0";
     Args := "";
     Path := "/opt/cni/bin";
     StdinData := "mynet" |}.

Definition conf1 : NetConf string string := mkNetConf "mynet" [] [].

(** A container id of 250 bytes, so that the logical client id has 261. *)
Definition long_container_id : string :=
  string_of_list_ascii (repeat "a"%char 250).

Definition no_result : Result := {| IPs := []; Routes := [] |}.

(** Worlds: a fresh node, one whose lease file cannot be written, and nodes
    restarted over a given lease file. *)
Definition fresh : World :=
  {| files := ∅; write_fault := None; trace := [] |}.

Definition read_only : World :=
  {| files := ∅;
     write_fault := Some (LibError "read-only file system");
     trace := [] |}.

Definition restarted (text : string) : World :=
  {| files := {[ savedLeaseLocation := text ]};
     write_fault := None;
     trace := [] |}.

End Node.

(** ** Lock discipline and client identifiers: further vocabulary *)

(** Running a trace against the daemon's mutex, which is not reentrant:
    [None] when the trace locks it while held or unlocks it while free,
    otherwise whether it is held at the end. *)
Fixpoint final_lock (held : bool) (tr : list Event) : option bool :=
  match tr with
  | [] => Some held
  | EvLock :: tr' => if held then None else final_lock true tr'
  | EvUnlock :: tr' => if held then final_lock false tr' else None
  | _ :: tr' => final_lock held tr'
  end.

(** A string without the separator of client identifiers. *)
Fixpoint slash_free (s : string) : bool :=
  match s with
  | EmptyString => true
  | String c s' => negb (Ascii.eqb c "/"%char) && slash_free s'
  end.

(** The settings a lease runs with that are not persisted. *)
Definition DHCPLease_settings (v : DHCPLease) : Duration * Duration * bool :=
  (timeout v, resendMax v, lease_broadcast v).

(** A computation that only appends events to the trace, and whose events
    take the mutex from state [h0] to state [h1] without locking it while
    held or unlocking it while free. *)
Definition locks {A : Type} (m : M A) (h0 h1 : bool) : Prop :=
  ∀ w, ∃ evs,
    trace (m w).2 = trace w ++ evs ∧ final_lock h0 evs = Some h1.

(** ** The remaining packet helpers *)

Module DhcpLeaseOps.

Import Dhcp4 Dhcp.

Definition OptionMessage : Z := 56.

(** The other packets a [dhcp4client.Client] builds from an
    acknowledgement. *)
Record PacketBuilders : Type := mkBuilders {
  DeclinePacket : Packet → Packet;
  RenewalRequestPacket : Packet → Packet;
  ReleasePacket : Packet → Packet
}.

(** The error of [DhcpRenew]: one passed on from the client, or the one it
    formats from the message option of a reply that is not an ACK. *)
Inductive renew_error : Type :=
  | Transport (e : error)
  | ServerResponded (format : string) (msg : list Z).

Definition DhcpSendDecline (c : Client) (b : PacketBuilders)
    (acknowledgementPacket : Packet) (options : Options) (order : RangeOrder)
    : option (Packet * option error) :=
  declinePacket ←
    range_AddOption order options (DeclinePacket b acknowledgementPacket);
  let declinePacket := PadToMinSize declinePacket in
  Some (declinePacket, SendPacket c declinePacket).

(** [DhcpRenew].  A missing message option reads as the nil slice. *)
Definition DhcpRenew (c : Client) (b : PacketBuilders)
    (acknowledgement : Packet) (options : Options) (order : RangeOrder)
    : option (bool * Packet * option renew_error) :=
  renewRequest ←
    range_AddOption order options (RenewalRequestPacket b acknowledgement);
  let renewRequest := PadToMinSize renewRequest in
  match SendPacket c renewRequest with
  | Some e => Some (false, renewRequest, Some (Transport e))
  | None =>
  let '(newAcknowledgement, err) := GetAcknowledgement c renewRequest in
  match err with
  | Some e => Some (false, newAcknowledgement, Some (Transport e))
  | None =>
      let newAcknowledgementOptions := ParseOptions newAcknowledgement in
      match newAcknowledgementOptions !! OptionDHCPMessageType with
      | Some (t :: _) =>
          if decide (t ≠ ACK)
          then
            let msg := default [] (newAcknowledgementOptions !! OptionMessage) in
            Some (false, newAcknowledgement,
                  Some (ServerResponded "dhcp server responded: %s" msg))
          else Some (true, newAcknowledgement, None)
      | _ => None
      end
  end end.

Definition DhcpRelease (c : Client) (b : PacketBuilders)
    (acknowledgement : Packet) (options : Options) (order : RangeOrder)
    : option (option error) :=
  release ← range_AddOption order options (ReleasePacket b acknowledgement);
  let release := PadToMinSize release in
  Some (SendPacket c release).

(** Builders to evaluate the helpers on: the header of [Dhcp.header] with the
    message type of each packet. *)
Definition builders : PacketBuilders :=
  {| DeclinePacket := λ _, header ++ [53; 1; 4; 255]%Z;
     RenewalRequestPacket := λ _, header ++ [53; 1; 3; 255]%Z;
     ReleasePacket := λ _, header ++ [53; 1; 7; 255]%Z |}.

(** A reply with a message type and a message option. *)
Definition reply_saying (messageType : Z) (msg : list Z) : Packet :=
  [2; 1; 6; 0]%Z ++ repeat 0%Z 232 ++ [99; 130; 83; 99]%Z
    ++ [53; 1; messageType]%Z ++ [56; Z.of_nat (length msg)]%Z ++ msg
    ++ [255]%Z.

End DhcpLeaseOps.

(** ** The host side of the daemon: listener, node status, start and
       shutdown *)

(** An argument of a format string, and the errors the host side builds:
    one passed on as it is, or [fmt.Errorf] kept as its format string and
    its arguments, without or with an error it prints. *)
Inductive FmtArg : Type :=
  | ArgS (s : string)
  | ArgN (n : nat).

Inductive herror : Type :=
  | Passed (e : error)
  | Formatted (format : string) (args : list FmtArg)
  | Wrapped (format : string) (args : list FmtArg) (cause : herror).

(** How [runDaemon] ends: it returns an error or nil, or it dereferences a
    nil daemon object. *)
Inductive outcome : Type :=
  | Returns (err : option herror)
  | Panics.

(** [rest.Config], as far as it is set here. *)
Record RestConfig : Type := mkRestConfig {
  Config_Host : string;
  Config_Timeout : Duration
}.

(** [kapiv1.NodeCondition]. *)
Record NodeCondition : Type := mkNodeCondition {
  Condition_Type : string;
  Condition_Status : string;
  Condition_Reason : string;
  Condition_Message : string;
  LastTransitionTime : Time;
  LastHeartbeatTime : Time
}.

Definition NodeNetworkUnavailable : string := "NetworkUnavailable".
Definition ConditionTrue : string := "True".
Definition ConditionFalse : string := "False".

(** [filepath.IsAbs] on Unix: the path starts with a slash. *)
Definition filepath_IsAbs (path : string) : bool :=
  match path with
  | String c _ => Ascii.eqb c "/"%char
  | EmptyString => false
  end.

(** The text [{"status":{"conditions":] that opens the patch. *)
Definition dquote : string := String "034"%char EmptyString.
Definition patch_prefix : string :=
  "{" +:+ dquote +:+ "status" +:+ dquote +:+ ":{" +:+ dquote +:+ "conditions"
      +:+ dquote +:+ ":".

(** The patch sent for a serialised list of conditions. *)
Definition patch_of (raw : string) : string := patch_prefix +:+ raw +:+ "}}".

(** What the host side calls and does not define: systemd socket
    activation, the file system and the network for the socket, the
    environment, the clock, [encoding/json] on node conditions, the cluster
    configuration and the node-status API.  A clientset is identified with
    the configuration it was built from. *)
Class HostEnv : Type := {
  Listener : Type;
  activation_Listeners : list (option Listener) * option error;
  filepath_Dir : string → string;
  os_MkdirAll : string → option error;
  net_Listen : string → Listener + error;
  NODENAME : string;
  metav1_Now : nat → Time;
  json_Marshal_conditions : list NodeCondition → string + error;
  Nodes_PatchStatus : RestConfig → string → string → option error;
  rest_InClusterConfig : RestConfig + error;
  kubernetes_NewForConfig : RestConfig → option error;
  pid_text : string
}.

Section HostSide.

Context `{env : Env} `{henv : HostEnv}.

(** The state of the host around the daemon's [World]: whether the calling
    goroutine is pinned to its thread, the directories made and the socket
    paths listened on, how often the clock was read, the node-status patches
    issued (clientset, node name, patch), the lines printed by [Println] and
    the listener and daemon object the RPC server was started with. *)
Record Host : Type := mkHost {
  world : World;
  thread_locked : bool;
  dirs : list string;
  listening : list string;
  clock_reads : nat;
  patches : list (RestConfig * string * string);
  printed : list string;
  served : option (Listener * DHCP)
}.

Definition HM (A : Type) : Type := Host → A * Host.

#[global] Instance HM_ret : MRet HM := λ A a h, (a, h).
#[global] Instance HM_bind : MBind HM :=
  λ A B k m h, let '(a, h') := m h in k a h'.

Definition with_world (h : Host) (w : World) : Host :=
  {| world := w; thread_locked := thread_locked h; dirs := dirs h;
     listening := listening h; clock_reads := clock_reads h;
     patches := patches h; printed := printed h; served := served h |}.

(** A daemon computation run on the host's world. *)
Definition lift {A : Type} (m : M A) : HM A :=
  λ h, let '(a, w) := m (world h) in (a, with_world h w).

Definition LockOSThread : HM unit :=
  λ h, (tt, {| world := world h; thread_locked := true; dirs := dirs h;
               listening := listening h; clock_reads := clock_reads h;
               patches := patches h; printed := printed h;
               served := served h |}).

Definition MkdirAll (path : string) : HM (option error) :=
  λ h, match os_MkdirAll path with
       | Some err => (Some err, h)
       | None =>
           (None, {| world := world h; thread_locked := thread_locked h;
                     dirs := dirs h ++ [path]; listening := listening h;
                     clock_reads := clock_reads h; patches := patches h;
                     printed := printed h; served := served h |})
       end.

(** [net.Listen("unix", path)]. *)
Definition Listen (path : string) : HM (Listener + error) :=
  λ h, match net_Listen path with
       | inr err => (inr err, h)
       | inl l =>
           (inl l,
            {| world := world h; thread_locked := thread_locked h;
               dirs := dirs h; listening := listening h ++ [path];
               clock_reads := clock_reads h; patches := patches h;
               printed := printed h; served := served h |})
       end.

Definition Now : HM Time :=
  λ h, (metav1_Now (clock_reads h),
        {| world := world h; thread_locked := thread_locked h; dirs := dirs h;
           listening := listening h; clock_reads := S (clock_reads h);
           patches := patches h; printed := printed h; served := served h |}).

Definition PatchStatus (clientset : RestConfig) (nodename patch : string)
    : HM (option error) :=
  λ h, (Nodes_PatchStatus clientset nodename patch,
        {| world := world h; thread_locked := thread_locked h; dirs := dirs h;
           listening := listening h; clock_reads := clock_reads h;
           patches := patches h ++ [(clientset, nodename, patch)];
           printed := printed h; served := served h |}).

Definition Println (line : string) : HM unit :=
  λ h, (tt, {| world := world h; thread_locked := thread_locked h;
               dirs := dirs h; listening := listening h;
               clock_reads := clock_reads h; patches := patches h;
               printed := printed h ++ [line]; served := served h |}).

(** [rpc.Register(dhcp); rpc.HandleHTTP(); http.Serve(l, nil)], until
    [Serve] returns. *)
Definition Serve (l : Listener) (dhcp : DHCP) : HM unit :=
  λ h, (tt, {| world := world h; thread_locked := thread_locked h;
               dirs := dirs h; listening := listening h;
               clock_reads := clock_reads h; patches := patches h;
               printed := printed h; served := Some (l, dhcp) |}).

(** [getListener].  Each path returns either a listener or an error. *)
Definition getListener (socketPath : string) : HM (Listener + herror) :=
  let '(l, err) := activation_Listeners in
  match err with
  | Some e => mret (inr (Passed e))
  | None =>
      match l with
      | [] =>
          err ← MkdirAll (filepath_Dir socketPath);
          match err with
          | Some e => mret (inr (Passed e))
          | None =>
              r ← Listen socketPath;
              match r with
              | inl lst => mret (inl lst)
              | inr e => mret (inr (Passed e))
              end
          end
      | [l0] =>
          match l0 with
          | None => mret (inr (Formatted "LISTEN_FDS=1 but no FD found" []))
          | Some l0 => mret (inl l0)
          end
      | _ =>
          mret (inr (Formatted
                       "Too many (%v) FDs passed through socket activation"
                       [ArgN (length l)]))
      end
  end.

(** The condition [SetNodeIsOfflineState] posts. *)
Definition node_condition (value : bool) (t1 t2 : Time) : NodeCondition :=
  if value then
    {| Condition_Type := NodeNetworkUnavailable;
       Condition_Status := ConditionTrue;
       Condition_Reason := "DHCPIsDown";
       Condition_Message := "DHCP Daemon is shutting down on this node";
       LastTransitionTime := t1;
       LastHeartbeatTime := t2 |}
  else
    {| Condition_Type := NodeNetworkUnavailable;
       Condition_Status := ConditionFalse;
       Condition_Reason := "DHCPIsUp";
       Condition_Message := "DHCP Daemon is running on this node";
       LastTransitionTime := t1;
       LastHeartbeatTime := t2 |}.

(** [SetNodeIsOfflineState]. *)
Definition SetNodeIsOfflineState (clientset : RestConfig) (value : bool)
    : HM (option error) :=
  let nodename := NODENAME in
  t1 ← Now;
  t2 ← Now;
  let condition := node_condition value t1 t2 in
  match json_Marshal_conditions [condition] with
  | inr err => mret (Some err)
  | inl raw =>
      let patch := patch_prefix +:+ raw +:+ "}}" in
      PatchStatus clientset nodename patch
  end.

(** [shutdown]. *)
Definition shutdown : HM unit :=
  match rest_InClusterConfig with
  | inl config =>
      let config := {| Config_Host := Config_Host config;
                       Config_Timeout := (2 * 1000000000)%Z |} in
      match kubernetes_NewForConfig config with
      | Some err =>
          lift (emit (EvPrintf "failed to connect to Kubernetes: %v" []
                               (Some err)))
      | None =>
          err ← SetNodeIsOfflineState config true;
          match err with
          | Some err =>
              lift (emit (EvPrintf "failed to connect to Kubernetes: %v" []
                                   (Some err)))
          | None => mret tt
          end
      end
  | inr _ => mret tt
  end.

(** [runDaemon].  [newDHCP] hands back a daemon object and an error
    separately; the object is used once the error is nil. *)
Definition runDaemon (pidfilePath hostPrefix socketPath : string)
    (dhcpClientTimeout resendMax : Duration) (broadcast : bool)
    : HM outcome :=
  _ ← LockOSThread;
  pidfile ←
    (if decide (pidfilePath ≠ "") then
       if negb (filepath_IsAbs pidfilePath) then
         mret (Some (Formatted "Error writing pidfile %q: path not absolute"
                               [ArgS pidfilePath]))
       else
         err ← lift (WriteFile pidfilePath pid_text);
         match err with
         | Some e =>
             mret (Some (Wrapped "Error writing pidfile %q: %v"
                                 [ArgS pidfilePath] (Passed e)))
         | None => mret None
         end
     else mret None);
  match pidfile with
  | Some e => mret (Returns (Some e))
  | None =>
  match rest_InClusterConfig with
  | inr err =>
      mret (Returns (Some (Wrapped "couldn't get Kubernetes cluster config: %v"
                                   [] (Passed err))))
  | inl config =>
  match kubernetes_NewForConfig config with
  | Some err =>
      mret (Returns (Some (Wrapped "couldn't create Kubernetes client: %v"
                                   [] (Passed err))))
  | None =>
      l ← getListener (hostPrefix +:+ socketPath);
      match l with
      | inr e =>
          mret (Returns (Some (Wrapped "Error getting listener: %v" [] e)))
      | inl l =>
          '(dhcp, err) ← lift (newDHCP dhcpClientTimeout resendMax broadcast);
          match err with
          | Some e => mret (Returns (Some (Passed e)))
          | None =>
              match dhcp with
              | None => mret Panics
              | Some dhcp =>
                  let dhcp := {| leases := leases dhcp;
                                 hostNetnsPrefix := hostPrefix;
                                 clientTimeout := clientTimeout dhcp;
                                 clientResendMax := clientResendMax dhcp;
                                 broadcast := broadcast |} in
                  err ← SetNodeIsOfflineState config false;
                  match err with
                  | Some e => mret (Returns (Some (Passed e)))
                  | None =>
                      _ ← Println "Daemon ready to receive requests";
                      _ ← Serve l dhcp;
                      mret (Returns None)
                  end
              end
          end
      end
  end end end.

End HostSide.

(** A concrete host for the node: nothing inherited through socket
    activation, a cluster configuration, a clock that counts its reads and a
    node-status API that accepts every patch. *)
Module NodeHost.

Definition in_cluster : RestConfig :=
  {| Config_Host := "https://10.96.0.1:443"; Config_Timeout := 0%Z |}.

Definition host_Marshal_conditions (conditions : list NodeCondition)
    : string + error :=
  inl ("[" +:+ String.concat ","
                 ((λ c, Condition_Type c +:+ "=" +:+ Condition_Status c)
                    <$> conditions) +:+ "]").

Definition node_host : HostEnv := {|
  Listener := string;
  activation_Listeners := ([], None);
  filepath_Dir := λ _, "/run/cni";
  os_MkdirAll := λ _, None;
  net_Listen := λ path, inl path;
  NODENAME := "node-1";
  metav1_Now := λ n, Z.of_nat n;
  json_Marshal_conditions := host_Marshal_conditions;
  Nodes_PatchStatus := λ _ _ _, None;
  rest_InClusterConfig := inl in_cluster;
  kubernetes_NewForConfig := λ _, None;
  pid_text := "4242"
|}.

(** The host before the daemon is run, over a given world. *)
Definition booting (w : World) : Host (henv := node_host) :=
  {| world := w; thread_locked := false; dirs := []; listening := [];
     clock_reads := 0; patches := []; printed := []; served := None |}.

End NodeHost.

(** The runs of the node and of its host that the properties are evaluated
    on. *)
Module NodeRuns.

Import Node NodeHost Dhcp4 Dhcp DhcpLeaseOps.



Definition first_allocation : DHCP * Result * option error * World :=
  Allocate (env := node) (daemon ∅) args1 no_result fresh.

Definition restart (text : string) : option DHCP * option error * World :=
  newDHCP (env := node) 10%Z 62%Z false (restarted text).

Definition reload (text : string) : list DHCPLease * option error * World :=
  LoadSavedLeases (env := node) savedLeaseLocation 10%Z 62%Z false
    (restarted text).

(** A NAK that says [no]. *)
Definition nak : Packet := reply_saying 6%Z [110; 111]%Z.

(** The daemon run over a lease file of two records. *)
Definition boot : outcome * Host (henv := node_host) :=
  runDaemon (env := node) "/run/dhcp.pid" "/host" "/run/cni/dhcp.sock"
    10%Z 62%Z true (booting (restarted "[c1,c2]")).

(** A registry that already holds a lease under the client id of [args1],
    next to the lease of another container; and the allocation that replaces
    the former. *)
Definition stale_lease : DHCPLease :=
  lease_of "c1/mynet/eth0" "old-1" "/var/run/netns/c0".

Definition crowded : DHCP :=
  daemon {[ "c1/mynet/eth0" := stale_lease; "c2/mynet/eth0" := lease2 ]}.

Definition replacing_allocation : DHCP * Result * option error * World :=
  Allocate (env := node) crowded args1 no_result fresh.

End NodeRuns.

(** ** The order of events in a trace *)

(** A removal from the registry, and a call of [Stop] on a lease. *)
Definition is_removal (e : Event) : bool :=
  match e with EvDelete _ => true | _ => false end.

Definition is_stop (e : Event) : bool :=
  match e with EvStop _ => true | _ => false end.

(** Whether the trace holds an event of the first kind with an event of the
    second kind after it. *)
Fixpoint followed_by (first second : Event → bool) (tr : list Event) : bool :=
  match tr with
  | [] => false
  | e :: rest =>
      (first e && existsb second rest) || followed_by first second rest
  end.

(** ** What [encoding/json] does to strings *)

(** The byte after a lead byte: it must lie in the range the lead byte
    accepts. *)
Definition utf8_next (lo hi : N) (s : string) : option string :=
  match s with
  | String c rest =>
      if ((lo <=? N_of_ascii c) && (N_of_ascii c <=? hi))%N
      then Some rest else None
  | EmptyString => None
  end.

(** [utf8.DecodeRuneInString], as far as its size goes: the number of bytes
    of the encoding that starts the string, or 0 when the first byte starts
    none (the case in which Go returns [RuneError] with size 1). *)
Definition utf8_rune_size (s : string) : nat :=
  match s with
  | EmptyString => 0
  | String c rest =>
      let x := N_of_ascii c in
      if (x <? 128)%N then 1
      else if (x <? 194)%N then 0
      else if (x <? 224)%N then
        match utf8_next 128 191 rest with Some _ => 2 | None => 0 end
      else if (x <? 240)%N then
        let lo := if (x =? 224)%N then 160%N else 128%N in
        let hi := if (x =? 237)%N then 159%N else 191%N in
        match utf8_next lo hi rest with
        | Some rest =>
            match utf8_next 128 191 rest with Some _ => 3 | None => 0 end
        | None => 0
        end
      else if (x <? 245)%N then
        let lo := if (x =? 240)%N then 144%N else 128%N in
        let hi := if (x =? 244)%N then 143%N else 191%N in
        match utf8_next lo hi rest with
        | Some rest =>
            match utf8_next 128 191 rest with
            | Some rest =>
                match utf8_next 128 191 rest with Some _ => 4 | None => 0 end
            | None => 0
            end
        | None => 0
        end
      else 0
  end.

(** The bytes EF BF BD of U+FFFD. *)
Definition utf8_replacement (s : string) : string :=
  String "239"%char (String "191"%char (String "189"%char s)).

(** The string that [json.Marshal] followed by [json.Unmarshal] gives back:
    every byte that starts no valid encoding is replaced by U+FFFD, and
    [skip] counts the bytes still to copy of the encoding under way. *)
Fixpoint ToValidUTF8_from (skip : nat) (s : string) : string :=
  match s with
  | EmptyString => EmptyString
  | String c rest =>
      match skip with
      | S skip => String c (ToValidUTF8_from skip rest)
      | 0 =>
          match utf8_rune_size s with
          | 0 => utf8_replacement (ToValidUTF8_from 0 rest)
          | S skip => String c (ToValidUTF8_from skip rest)
          end
      end
  end.

Definition ToValidUTF8 (s : string) : string := ToValidUTF8_from 0 s.

Definition utf8_ValidString (s : string) : Prop := ToValidUTF8 s = s.

(** A record as it comes back from the lease file. *)
Definition json_coerce (lease : PersistedLeased) : PersistedLeased :=
  {| ClientID := ToValidUTF8 (ClientID lease);
     Ack := Ack lease;
     LinkName := ToValidUTF8 (LinkName lease);
     RenewalTime := RenewalTime lease;
     RebindingTime := RebindingTime lease;
     ExpireTime := ExpireTime lease;
     K8sNamespace := ToValidUTF8 (K8sNamespace lease);
     K8sPodName := ToValidUTF8 (K8sPodName lease);
     NetNs := ToValidUTF8 (NetNs lease) |}.


Section JsonCodec.

Context `{env : Env}.

(** What the daemon relies on from [encoding/json]: decoding what was encoded
    gives the records back with their strings coerced to valid UTF-8. *)
Definition json_codec_law : Prop :=
  ∀ recs b, json_Marshal recs = inl b →
    (json_Unmarshal_leases b).1 = json_coerce <$> recs.

(** The strings of a lease that are persisted are valid UTF-8. *)
Definition valid_strings (v : DHCPLease) : Prop :=
  utf8_ValidString (clientID v) ∧ utf8_ValidString (Attrs_Name (link v)) ∧
  utf8_ValidString (k8sNamespace v) ∧ utf8_ValidString (k8sPodName v) ∧
  utf8_ValidString (netNs v).

(** A lease as it is reloaded through the lease file: byte sequences and
    times are preserved, strings come back coerced, and the link is the one
    the coerced name resolves to inside the coerced namespace path. *)
Definition reloaded_through_json (v v' : DHCPLease) : Prop :=
  clientID v' = ToValidUTF8 (clientID v) ∧ ack v' = ack v ∧
  renewalTime v' = renewalTime v ∧ rebindingTime v' = rebindingTime v ∧
  expireTime v' = expireTime v ∧
  k8sNamespace v' = ToValidUTF8 (k8sNamespace v) ∧
  k8sPodName v' = ToValidUTF8 (k8sPodName v) ∧
  netNs v' = ToValidUTF8 (netNs v) ∧
  netlink_LinkByName (ToValidUTF8 (netNs v))
    (ToValidUTF8 (Attrs_Name (link v))) = inl (link v').

End JsonCodec.

(** A node whose lease file is written by such a codec. *)
Module Utf8Node.

Import Node.

Local Open Scope Z_scope.

(** A container id of 255 bytes that ends in a two-byte character (C3 A9),
    so that [generateClientID] cuts the character in two. *)
Definition accented_container_id : string :=
  string_of_list_ascii (repeat "a"%char 253)
    +:+ String "195"%char (String "169"%char EmptyString).

Definition cut_id : string :=
  generateClientID accented_container_id "mynet" "eth0".

Definition cut_lease : DHCPLease :=
  lease_of cut_id "web-1" "/var/run/netns/c1".

(** The request that makes [Allocate] register that lease. *)
Definition accented_args : CmdArgs :=
  {| ContainerID := accented_container_id;
     Netns := "/var/run/netns/c1";
     IfName := "eth0";
     Args := "";
     Path := "/opt/cni/bin";
     StdinData := "mynet" |}.

(** The lease files of this node: the strings of a record are coerced to
    valid UTF-8 before it is written. *)
Definition utf8_table : list (string * list PersistedLeased) :=
  [ ("null", []);
    ("[c1]", [rec1]);
    ("[cut]", [json_coerce (rec_of cut_lease "eth0")]) ].

Definition utf8_Marshal (recs : list PersistedLeased) : string + error :=
  match text_of utf8_table (json_coerce <$> recs) with
  | Some text => inl text
  | None => inr (LibError "json: unsupported value")
  end.

Definition utf8_Unmarshal_leases (text : string)
    : list PersistedLeased * option error :=
  match records_of utf8_table text with
  | Some recs => (recs, None)
  | None => ([], Some (LibError "unexpected end of JSON input"))
  end.

Definition utf8_node : Env := {|
  ProvideOption := string;
  RequestOption := string;
  json_Marshal := utf8_Marshal;
  json_Unmarshal_leases := utf8_Unmarshal_leases;
  json_Unmarshal_conf := node_Unmarshal_conf;
  ns_GetNS := node_GetNS;
  netlink_LinkByName := node_LinkByName;
  Pods_Get := node_Pods_Get;
  StartMaintaining := λ _, None;
  AcquireLease := node_AcquireLease;
  lease_IPNet := λ _, inl {| IPNet_IP := [10; 0; 0; 5]%Z;
                             IPNet_Mask := [255; 255; 255; 0]%Z |};
  lease_Gateway := λ _, [10; 0; 0; 1]%Z;
  lease_Routes := λ _, [];
  LoadArgs := node_LoadArgs;
  prepareOptions := λ _ _ _, inl (∅, ∅);
  range_leases := map_to_list;
  range_leases_perm := λ m, reflexivity (map_to_list m)
|}.

End Utf8Node.

(** * Properties *)

Section GoStringFacts.

Lemma slice_to_length n s :
  GoString.len (GoString.slice_to n s) = Nat.min n (GoString.len s).
Proof.
  unfold GoString.len, GoString.slice_to.
  revert n; induction s as [|c s IH]; intros [|n]; simpl; auto.
Qed.

Lemma slice_to_prefix n s :
  ∃ rest, s = GoString.slice_to n s +:+ rest.
Proof.
  unfold GoString.slice_to.
  revert n; induction s as [|c s IH]; intros [|n]; simpl.
  - by exists "".
  - by exists "".
  - by exists (String c s).
  - destruct (IH n) as [rest Hrest]. exists rest. rewrite Hrest at 1. reflexivity.
Qed.

End GoStringFacts.

(** C9. [generateClientID] returns [containerID/netName/ifName] whenever that
    concatenation has at most 254 bytes; whenever it is longer the result is
    exactly its first 254 bytes (a prefix of length 254); in both cases the
    result has at most 254 bytes, and being a function the result is
    determined by the three arguments. *)
Theorem generateClientID_truncates (containerID netName ifName : string) :
  let full := containerID +:+ "/" +:+ netName +:+ "/" +:+ ifName in
  let id := generateClientID containerID netName ifName in
  (GoString.len full ≤ 254 → id = full) ∧
  (254 < GoString.len full →
     id = GoString.slice_to 254 full ∧ GoString.len id = 254 ∧
     ∃ rest, full = id +:+ rest) ∧
  GoString.len id ≤ 254 ∧
  (∀ c' n' i', c' = containerID → n' = netName → i' = ifName →
     generateClientID c' n' i' = id).
Proof.
  intros full id. subst id. unfold generateClientID. fold full.
  destruct (Nat.ltb_spec 254 (GoString.len full)) as [Hlong|Hshort].
  - repeat split.
    + lia.
    + rewrite slice_to_length. lia.
    + apply slice_to_prefix.
    + rewrite slice_to_length. lia.
    + intros c' n' i' -> -> ->. fold full.
      destruct (Nat.ltb_spec 254 (GoString.len full)); [done | lia].
  - repeat split.
    + lia.
    + lia.
    + lia.
    + lia.
    + intros c' n' i' -> -> ->. fold full.
      destruct (Nat.ltb_spec 254 (GoString.len full)); [lia | done].
Qed.

Lemma generateClientID_truncates_witness :
  let full := Node.long_container_id +:+ "/" +:+ "mynet" +:+ "/" +:+ "eth0" in
  let id := generateClientID Node.long_container_id "mynet" "eth0" in
  GoString.len full = 261 ∧
  id = GoString.slice_to 254 full ∧ GoString.len id = 254 ∧
  ∃ rest, full = id +:+ rest.
Proof.
  intros full id. split; [vm_compute; reflexivity|].
  apply (generateClientID_truncates Node.long_container_id "mynet" "eth0").
  vm_compute. lia.
Defined.

(** ** Running the world monad *)

#[local] Arguments generateClientID : simpl never.

Ltac run :=
  repeat (unfold mbind, M_bind, mret, M_ret, emit, getLease, setLease,
          clearLease; simpl).

Section DaemonFacts.

Context `{env : Env}.

Lemma mutex_held_app tr tr' :
  mutex_held (tr ++ tr') =
  fold_left (λ held e,
    match e with
    | EvLock => true
    | EvUnlock => false
    | _ => held
    end) tr' (mutex_held tr).
Proof. unfold mutex_held. by rewrite fold_left_app. Qed.

(** What [PersistActiveLeases] leaves in the trace: the attempt with the
    snapshot of the registry, then only output events. *)
Lemma PersistActiveLeases_trace fileName m w :
  ∃ out,
    trace (PersistActiveLeases fileName m w).2 =
      trace w ++ EvPersist fileName (snapshot m) :: out ∧
    forallb is_output out = true.
Proof.
  unfold PersistActiveLeases, WriteFile. run.
  destruct (json_Marshal (snapshot m)) as [b|err]; run.
  - destruct (write_fault w) as [e|]; run.
    + exists [EvWriteFile fileName b (Some e);
              EvLogPrintf "Error while saving: %v" e].
      by rewrite <- !app_assoc.
    + exists [EvWriteFile fileName b None]. by rewrite <- !app_assoc.
  - by exists [].
Qed.

(** When serialisation and the write succeed, the file is replaced by the
    serialised snapshot. *)
Lemma PersistActiveLeases_writes fileName m w b :
  json_Marshal (snapshot m) = inl b →
  write_fault w = None →
  (PersistActiveLeases fileName m w).1 = None ∧
  files (PersistActiveLeases fileName m w).2 = <[fileName := b]> (files w) ∧
  write_fault (PersistActiveLeases fileName m w).2 = None.
Proof.
  intros Hb Hw. unfold PersistActiveLeases, WriteFile. run.
  rewrite Hb. run. rewrite Hw. by run.
Qed.

(** Only a failed serialisation makes [PersistActiveLeases] return an
    error. *)
Lemma PersistActiveLeases_serialised fileName m w b :
  json_Marshal (snapshot m) = inl b →
  (PersistActiveLeases fileName m w).1 = None.
Proof.
  intros Hb. unfold PersistActiveLeases, WriteFile. run. rewrite Hb. run.
  by destruct (write_fault w).
Qed.

Lemma snapshot_perm m :
  snapshot m ≡ₚ persisted_of <$> (map_to_list m).*2.
Proof.
  unfold snapshot. rewrite (range_leases_perm m).
  by rewrite <- list_fmap_compose.
Qed.

(** C10. A Release whose computed client id is not in the registry returns
    no error and changes neither the registry nor the lease file: all it does
    is take and release the mutex for the lookup, so no Stop is issued and no
    persistence is attempted. *)
Theorem Release_absent_changes_nothing (d : DHCP) (args : CmdArgs) (w : World)
    (conf : NetConf ProvideOption RequestOption) :
  json_Unmarshal_conf (StdinData args) = inl conf →
  leases d !! generateClientID (ContainerID args) (NetConf_Name conf)
                               (IfName args) = None →
  ∃ w',
    Release d args w = ((d, None), w') ∧
    files w' = files w ∧
    trace w' = trace w ++ [EvLock; EvUnlock].
Proof.
  intros Hconf Habsent. unfold Release, getLease.
  rewrite Hconf. cbv beta iota zeta. rewrite Habsent. run. eexists; split; [reflexivity|]. simpl.
  by rewrite <- app_assoc.
Qed.

(** *** Startup reconciliation *)

Lemma add_trace_nil w : add_trace w [] = w.
Proof. destruct w. unfold add_trace. simpl. by rewrite app_nil_r. Qed.

Lemma add_trace_app w evs evs' :
  add_trace (add_trace w evs) evs' = add_trace w (evs ++ evs').
Proof. unfold add_trace. simpl. by rewrite app_assoc. Qed.

(** One turn of the loop of [newDHCP], case by case. *)
Lemma newDHCP_loop_not_found val rest dhcp w :
  carries_workload val →
  IsNotFound (Pods_Get (k8sNamespace val) (k8sPodName val)) = true →
  newDHCP_loop (val :: rest) dhcp w =
  newDHCP_loop rest dhcp (add_trace w (startup_events val)).
Proof.
  intros Hc Hnf. unfold startup_events, kept_at_startup. simpl.
  destruct (decide (k8sPodName val ≠ "")) as [_|Hn]; [|by destruct Hn].
  rewrite Hnf. by run.
Qed.

Lemma newDHCP_loop_api_error val rest dhcp w e :
  carries_workload val →
  Pods_Get (k8sNamespace val) (k8sPodName val) = Some e →
  IsNotFound (Some e) = false →
  newDHCP_loop (val :: rest) dhcp w = (inr e, w).
Proof.
  intros Hc He Hnf. simpl.
  destruct (decide (k8sPodName val ≠ "")) as [_|Hn]; [|by destruct Hn].
  rewrite He, Hnf. by run.
Qed.

Lemma newDHCP_loop_kept val rest dhcp w :
  (carries_workload val →
   Pods_Get (k8sNamespace val) (k8sPodName val) = None) →
  newDHCP_loop (val :: rest) dhcp w =
  match StartMaintaining val with
  | Some err =>
      (inr (Errorf "failed to start maintaining lease: %v" [] err),
       add_trace w (startup_events val))
  | None =>
      newDHCP_loop rest
        (with_leases dhcp (<[clientID val := val]> (leases dhcp)))
        (add_trace w (startup_events val))
  end.
Proof.
  intros Hfound. unfold startup_events, kept_at_startup, add_trace. simpl.
  destruct (decide (k8sPodName val ≠ "")) as [Hc|Hn].
  - rewrite (Hfound Hc). run.
    destruct (StartMaintaining val); run; by rewrite <- !app_assoc.
  - run. destruct (StartMaintaining val); run; by rewrite <- !app_assoc.
Qed.

(** A loop that runs to its end inserted exactly the kept leases, in order,
    started the maintainer of each, and met no other failure. *)
Lemma newDHCP_loop_completes ls dhcp w dhcp' w' :
  newDHCP_loop ls dhcp w = (inl dhcp', w') →
  dhcp' = with_leases dhcp
            (insert_all (List.filter kept_at_startup ls) (leases dhcp)) ∧
  w' = add_trace w (mjoin (startup_events <$> ls)) ∧
  Forall (λ val, ¬ orchestrator_fails val) ls.
Proof.
  revert dhcp w. induction ls as [|val rest IH]; intros dhcp w Hloop.
  - simpl in Hloop. unfold mret, M_ret in Hloop.
    injection Hloop as <- <-. simpl.
    rewrite add_trace_nil. by destruct dhcp.
  - destruct (decide (k8sPodName val ≠ "")) as [Hc|Hn].
    + destruct (Pods_Get (k8sNamespace val) (k8sPodName val)) as [e|] eqn:He.
      * destruct (IsNotFound (Some e)) eqn:Hnf.
        -- rewrite newDHCP_loop_not_found in Hloop by (done || by rewrite He).
           apply IH in Hloop as (-> & -> & Hall).
           assert (kept_at_startup val = false) as Hk.
           { unfold kept_at_startup. rewrite decide_True by done.
             by rewrite He, Hnf. }
           simpl. rewrite Hk, add_trace_app. split_and!; [done|done|].
           constructor; [|done].
           intros (_ & e' & He' & Hnf'). congruence.
        -- by rewrite (newDHCP_loop_api_error _ _ _ _ e) in Hloop.
      * rewrite newDHCP_loop_kept in Hloop by done.
        destruct (StartMaintaining val); [done|].
        apply IH in Hloop as (-> & -> & Hall).
        assert (kept_at_startup val = true) as Hk.
        { unfold kept_at_startup. rewrite decide_True by done. by rewrite He. }
        simpl. rewrite Hk, add_trace_app. split_and!; [done|done|].
        constructor; [|done].
        intros (_ & e' & He' & _). congruence.
    + rewrite newDHCP_loop_kept in Hloop by done.
      destruct (StartMaintaining val); [done|].
      apply IH in Hloop as (-> & -> & Hall).
      assert (kept_at_startup val = true) as Hk.
      { unfold kept_at_startup. by rewrite decide_False by done. }
      simpl. rewrite Hk, add_trace_app. split_and!; [done|done|].
      constructor; [|done].
      by intros (Hc & _).
Qed.

(** An orchestrator failure anywhere in the list makes the loop return an
    error. *)
Lemma newDHCP_loop_aborts ls dhcp w :
  Exists orchestrator_fails ls →
  ∃ e w', newDHCP_loop ls dhcp w = (inr e, w').
Proof.
  intros Hex.
  destruct (newDHCP_loop ls dhcp w) as [[dhcp'|e] w'] eqn:Hloop; [|by eauto].
  apply newDHCP_loop_completes in Hloop as (_ & _ & Hall).
  apply Exists_exists in Hex as (val & Hin & Hfail).
  rewrite Forall_forall in Hall. by destruct (Hall val Hin).
Qed.

Lemma newDHCP_loop_succeeds ls dhcp w :
  Forall (λ val, ¬ orchestrator_fails val) ls →
  Forall (λ val, kept_at_startup val = true → StartMaintaining val = None) ls →
  newDHCP_loop ls dhcp w =
  (inl (with_leases dhcp
          (insert_all (List.filter kept_at_startup ls) (leases dhcp))),
   add_trace w (mjoin (startup_events <$> ls))).
Proof.
  intros Hok Hstart. revert dhcp w.
  induction ls as [|val rest IH]; intros dhcp w.
  - simpl. rewrite add_trace_nil. unfold mret, M_ret. by destruct dhcp.
  - apply Forall_cons in Hok as [Hval Hok].
    apply Forall_cons in Hstart as [Hsv Hstart].
    specialize (IH Hok Hstart).
    destruct (kept_at_startup val) eqn:Hk.
    + assert (carries_workload val →
              Pods_Get (k8sNamespace val) (k8sPodName val) = None) as Hfound.
      { intros Hc. unfold kept_at_startup in Hk.
        rewrite decide_True in Hk by done.
        destruct (Pods_Get (k8sNamespace val) (k8sPodName val)) as [e|] eqn:He;
          [|done].
        destruct Hval. split; [done|]. exists e. split; [done|].
        by destruct (IsNotFound (Some e)). }
      rewrite newDHCP_loop_kept by done. rewrite (Hsv eq_refl), IH.
      simpl. by rewrite Hk, add_trace_app.
    + pose proof Hk as Hnf. unfold kept_at_startup in Hnf.
      destruct (decide (k8sPodName val ≠ "")) as [Hc|Hn]; [|done].
      apply negb_false_iff in Hnf.
      rewrite newDHCP_loop_not_found, IH by done.
      simpl. by rewrite Hk, add_trace_app.
Qed.

(** [newDHCP] once the lease file has been loaded. *)
Lemma newDHCP_after_load clientTimeout clientResendMax broadcast w w1 loaded lerr :
  LoadSavedLeases savedLeaseLocation clientTimeout clientResendMax broadcast w
    = ((loaded, lerr), w1) →
  newDHCP clientTimeout clientResendMax broadcast w =
  let '(r, w2) := newDHCP_loop loaded (empty_DHCP clientTimeout clientResendMax)
                    (add_trace w1 (load_failure_log lerr)) in
  match r with
  | inr e => ((None, Some e), w2)
  | inl dhcp =>
      let '(err, w3) :=
        PersistActiveLeases savedLeaseLocation (leases dhcp) w2 in
      match err with
      | Some e => ((None, Some e), w3)
      | None => ((Some dhcp, None), w3)
      end
  end.
Proof.
  intros Hload. unfold newDHCP. run. rewrite Hload.
  fold (empty_DHCP clientTimeout clientResendMax).
  destruct lerr as [e0|]; simpl.
  - fold (add_trace w1 [EvPrintf "Failed to load leases: %v%n" [] (Some e0)]).
    destruct (newDHCP_loop _ _ _) as [[dhcp|e] w2]; [|done].
    by destruct (PersistActiveLeases _ _ _) as [[e|] w3].
  - rewrite add_trace_nil.
    destruct (newDHCP_loop _ _ _) as [[dhcp|e] w2]; [|done].
    by destruct (PersistActiveLeases _ _ _) as [[e|] w3].
Qed.

(** C3. Startup reconciliation over the loaded leases.  Wherever the loop of
    [newDHCP] reaches a lease: with a workload identity that the orchestrator
    reports not found, the lease is dropped (only a log line; the registry is
    untouched) and the loop goes on; with a workload identity whose query
    fails otherwise, the loop stops with that error; with a workload that is
    found, and likewise with no workload identity whatever the orchestrator
    would say, the lease is inserted under its client id and its maintainer
    is started.  For the whole of [newDHCP]: an orchestrator failure on any
    loaded lease makes construction return an error and no daemon; a daemon
    that is returned holds exactly the kept leases; and a daemon is returned
    whenever no query fails, every maintainer starts and the registry
    serialises. *)
Theorem newDHCP_reconciles_loaded_leases
    (clientTimeout clientResendMax : Duration) (broadcast : bool)
    (w w1 : World) (loaded : list DHCPLease) (lerr : option error) :
  LoadSavedLeases savedLeaseLocation clientTimeout clientResendMax broadcast w
    = ((loaded, lerr), w1) →
  (∀ val rest dhcp w0,
     (carries_workload val →
      IsNotFound (Pods_Get (k8sNamespace val) (k8sPodName val)) = true →
      newDHCP_loop (val :: rest) dhcp w0 =
      newDHCP_loop rest dhcp
        (add_trace w0
           [EvPrintf "Pod %s wasn't found running on the cluster. Removing.\n"
                     [k8sPodName val] None])) ∧
     (orchestrator_fails val →
      ∃ e, Pods_Get (k8sNamespace val) (k8sPodName val) = Some e ∧
           newDHCP_loop (val :: rest) dhcp w0 = (inr e, w0)) ∧
     ((carries_workload val →
       Pods_Get (k8sNamespace val) (k8sPodName val) = None) →
      newDHCP_loop (val :: rest) dhcp w0 =
      let w0' := add_trace w0 [EvLock; EvInsert (clientID val); EvUnlock;
                               EvStartMaintaining val] in
      match StartMaintaining val with
      | Some err =>
          (inr (Errorf "failed to start maintaining lease: %v" [] err), w0')
      | None =>
          newDHCP_loop rest
            (with_leases dhcp (<[clientID val := val]> (leases dhcp))) w0'
      end)) ∧
  (Exists orchestrator_fails loaded →
   ∃ e w', newDHCP clientTimeout clientResendMax broadcast w
           = ((None, Some e), w')) ∧
  (∀ dhcp w',
     newDHCP clientTimeout clientResendMax broadcast w
       = ((Some dhcp, None), w') →
     leases dhcp = insert_all (List.filter kept_at_startup loaded) ∅ ∧
     Forall (λ val, ¬ orchestrator_fails val) loaded ∧
     ∃ pre out,
       trace w' = trace w1 ++ pre ++ mjoin (startup_events <$> loaded)
                   ++ EvPersist savedLeaseLocation (snapshot (leases dhcp))
                   :: out ∧
       forallb is_output pre = true ∧ forallb is_output out = true) ∧
  (Forall (λ val, ¬ orchestrator_fails val) loaded →
   Forall (λ val, kept_at_startup val = true → StartMaintaining val = None)
          loaded →
   (∃ b, json_Marshal
           (snapshot (insert_all (List.filter kept_at_startup loaded) ∅))
         = inl b) →
   ∃ dhcp w',
     newDHCP clientTimeout clientResendMax broadcast w
       = ((Some dhcp, None), w') ∧
     leases dhcp = insert_all (List.filter kept_at_startup loaded) ∅).
Proof.
  intros Hload. split_and!.
  - intros val rest dhcp w0. split_and!.
    + intros Hc Hnf. rewrite newDHCP_loop_not_found by done.
      unfold startup_events, kept_at_startup.
      rewrite decide_True by done. by rewrite Hnf.
    + intros (Hc & e & He & Hnf). exists e. split; [done|].
      by apply newDHCP_loop_api_error.
    + intros Hfound. rewrite newDHCP_loop_kept by done.
      unfold startup_events, kept_at_startup.
      destruct (decide (k8sPodName val ≠ "")) as [Hc|Hn]; [|done].
      by rewrite (Hfound Hc).
  - intros Hex. rewrite (newDHCP_after_load _ _ _ _ _ _ _ Hload).
    destruct (newDHCP_loop_aborts loaded
                (empty_DHCP clientTimeout clientResendMax)
                (add_trace w1 (load_failure_log lerr)) Hex)
      as (e & w' & Hloop).
    exists e, w'. by rewrite Hloop.
  - intros dhcp w' Hnew.
    rewrite (newDHCP_after_load _ _ _ _ _ _ _ Hload) in Hnew.
    destruct (newDHCP_loop loaded _ _) as [[dhcp0|e] w2] eqn:Hloop; [|done].
    apply newDHCP_loop_completes in Hloop as (-> & -> & Hall).
    set (d1 := with_leases _ _) in *.
    destruct (PersistActiveLeases_trace savedLeaseLocation (leases d1)
                (add_trace (add_trace w1 (load_failure_log lerr))
                           (mjoin (startup_events <$> loaded))))
      as (out & Htr & Hout).
    destruct (PersistActiveLeases savedLeaseLocation (leases d1) _)
      as [[e|] w3]; [done|].
    injection Hnew as <- <-. simpl in Htr.
    split_and!; [done|done|].
    exists (load_failure_log lerr), out. rewrite Htr, <- !app_assoc.
    split_and!; [done| |done].
    by destruct lerr.
  - intros Hok Hstart [b Hb].
    rewrite (newDHCP_after_load _ _ _ _ _ _ _ Hload).
    rewrite newDHCP_loop_succeeds by done.
    set (d1 := with_leases _ _). set (w2 := add_trace _ _).
    pose proof (PersistActiveLeases_serialised savedLeaseLocation
                  (leases d1) w2 b Hb) as Hnil.
    destruct (PersistActiveLeases savedLeaseLocation (leases d1) w2)
      as [err w3]. simpl in Hnil. subst err.
    by exists d1, w3.
Qed.

(** *** Loading the lease file *)

Lemma LoadSavedLeases_loop_skips timeout resendMax broadcast lease rest acc w :
  netns_gone lease →
  LoadSavedLeases_loop timeout resendMax broadcast (lease :: rest) acc w =
  LoadSavedLeases_loop timeout resendMax broadcast rest acc
    (add_trace w [skip_log lease]).
Proof.
  intros [msg Hgone]. simpl. unfold WithNetNSPath. rewrite Hgone. by run.
Qed.

Lemma LoadSavedLeases_loop_loads timeout resendMax broadcast lease rest acc w lnk :
  ns_GetNS (NetNs lease) = None →
  netlink_LinkByName (NetNs lease) (LinkName lease) = inl lnk →
  LoadSavedLeases_loop timeout resendMax broadcast (lease :: rest) acc w =
  LoadSavedLeases_loop timeout resendMax broadcast rest
    (acc ++ [reloaded_lease lease lnk timeout resendMax broadcast]) w.
Proof.
  intros Hns Hlnk. simpl. unfold WithNetNSPath. by rewrite Hns, Hlnk.
Qed.

Lemma LoadSavedLeases_loop_link_error timeout resendMax broadcast lease rest acc w :
  link_unresolved lease →
  ∃ e, LoadSavedLeases_loop timeout resendMax broadcast (lease :: rest) acc w
       = (([], Some e), w).
Proof.
  intros (Hns & err & Hlnk). simpl. unfold WithNetNSPath.
  rewrite Hns, Hlnk. simpl. eauto.
Qed.

(** The loop returns either an error and no lease at all, or no error. *)
Lemma LoadSavedLeases_loop_all_or_nothing timeout resendMax broadcast recs acc w :
  ∀ loaded e w',
    LoadSavedLeases_loop timeout resendMax broadcast recs acc w
      = ((loaded, Some e), w') →
    loaded = [].
Proof.
  revert acc w. induction recs as [|lease rest IH]; intros acc w loaded e w'.
  - simpl. unfold mret, M_ret. congruence.
  - simpl. destruct (WithNetNSPath _ _) as [lnk|err].
    + apply IH.
    + destruct (is_NSPathNotExistErr err).
      * run. apply IH.
      * unfold mret, M_ret. congruence.
Qed.

(** An unresolved link anywhere among the records fails the whole load. *)
Lemma LoadSavedLeases_loop_link_fatal timeout resendMax broadcast recs acc w :
  Exists link_unresolved recs →
  ∃ e w', LoadSavedLeases_loop timeout resendMax broadcast recs acc w
          = (([], Some e), w').
Proof.
  intros Hex. revert acc w.
  induction recs as [|lease rest IH]; intros acc w.
  - by apply Exists_nil in Hex.
  - apply Exists_cons in Hex as [Hbad|Hex].
    + destruct (LoadSavedLeases_loop_link_error timeout resendMax broadcast
                  lease rest acc w Hbad) as [e He].
      eauto.
    + specialize (IH Hex). simpl.
      destruct (WithNetNSPath _ _) as [lnk|err]; [apply IH|].
      destruct (is_NSPathNotExistErr err).
      * run. apply IH.
      * unfold mret, M_ret. eauto.
Qed.

(** When every record is either gone or loadable, the loop returns the
    survivors in file order, having logged one line per skipped record. *)
Lemma LoadSavedLeases_loop_survivors timeout resendMax broadcast recs acc w :
  Forall (λ lease, netns_gone lease ∨ loadable lease) recs →
  ∃ logs,
    LoadSavedLeases_loop timeout resendMax broadcast recs acc w =
      ((acc ++ survivors timeout resendMax broadcast recs, None),
       add_trace w logs) ∧
    forallb is_log logs = true.
Proof.
  intros Hall. revert acc w.
  induction Hall as [|lease rest Hlease _ IH]; intros acc w.
  - exists []. simpl. rewrite add_trace_nil, app_nil_r. done.
  - destruct Hlease as [Hgone|[Hns [lnk Hlnk]]].
    + rewrite LoadSavedLeases_loop_skips by done.
      destruct (IH acc (add_trace w [skip_log lease])) as (logs & -> & Hlogs).
      exists (skip_log lease :: logs). rewrite add_trace_app.
      split; [|done]. unfold survivors. simpl. unfold resolve at 2.
      destruct Hgone as [msg ->]. done.
    + rewrite (LoadSavedLeases_loop_loads _ _ _ _ _ _ _ lnk) by done.
      destruct (IH (acc ++ [reloaded_lease lease lnk timeout resendMax broadcast])
                  w) as (logs & -> & Hlogs).
      exists logs. split; [|done]. unfold survivors. simpl. unfold resolve at 2.
      rewrite Hns, Hlnk. simpl. by rewrite <- app_assoc.
Qed.

(** [LoadSavedLeases] once the file has been read and decoded. *)
Lemma LoadSavedLeases_of_file leaseFile timeout resendMax broadcast w file recs perr :
  files w !! leaseFile = Some file →
  json_Unmarshal_leases file = (recs, perr) →
  LoadSavedLeases leaseFile timeout resendMax broadcast w =
  LoadSavedLeases_loop timeout resendMax broadcast recs [] w.
Proof.
  intros Hfile Hdec. unfold LoadSavedLeases, ReadFile. run.
  by rewrite Hfile, Hdec.
Qed.

(** C5 (amended). When the lease file is loaded, a record whose namespace
    path no longer exists is skipped with a log line and loading continues
    with the remaining records: if every record is either gone or loadable,
    exactly the loadable ones are returned, in file order.  A record whose
    namespace exists but whose link cannot be resolved is fatal for the whole
    load: [LoadSavedLeases] returns an error and no lease at all. *)
Theorem LoadSavedLeases_skips_gone_fails_on_link
    (leaseFile : string) (timeout resendMax : Duration) (broadcast : bool)
    (w : World) (file : string) (recs : list PersistedLeased)
    (perr : option error) :
  files w !! leaseFile = Some file →
  json_Unmarshal_leases file = (recs, perr) →
  (∀ lease rest acc w0,
     netns_gone lease →
     LoadSavedLeases_loop timeout resendMax broadcast (lease :: rest) acc w0 =
     LoadSavedLeases_loop timeout resendMax broadcast rest acc
       (add_trace w0 [skip_log lease])) ∧
  (Forall (λ lease, netns_gone lease ∨ loadable lease) recs →
   ∃ logs,
     LoadSavedLeases leaseFile timeout resendMax broadcast w =
       ((survivors timeout resendMax broadcast recs, None), add_trace w logs) ∧
     forallb is_log logs = true) ∧
  (Exists link_unresolved recs →
   ∃ e w', LoadSavedLeases leaseFile timeout resendMax broadcast w
           = (([], Some e), w')) ∧
  (∀ loaded e w',
     LoadSavedLeases leaseFile timeout resendMax broadcast w
       = ((loaded, Some e), w') →
     loaded = []).
Proof.
  intros Hfile Hdec.
  rewrite (LoadSavedLeases_of_file _ _ _ _ _ _ _ _ Hfile Hdec).
  split_and!.
  - intros. by apply LoadSavedLeases_loop_skips.
  - intros Hall.
    destruct (LoadSavedLeases_loop_survivors timeout resendMax broadcast
                recs [] w Hall) as (logs & Hloop & Hlogs).
    by exists logs.
  - apply LoadSavedLeases_loop_link_fatal.
  - apply LoadSavedLeases_loop_all_or_nothing.
Qed.

(** The survivors of the records of loadable leases are those leases again,
    each with its link resolved by name. *)
Lemma survivors_reloaded timeout resendMax broadcast (vs : list DHCPLease) :
  Forall (λ v, loadable (persisted_of v)) vs →
  Forall2 reloaded_from vs
    (survivors timeout resendMax broadcast (persisted_of <$> vs)).
Proof.
  induction 1 as [|v vs [Hns [lnk Hlnk]] _ IH]; [constructor|].
  unfold survivors. simpl. unfold resolve at 1. rewrite Hns, Hlnk. simpl.
  constructor; [|exact IH].
  split; [by repeat split|]. exact Hlnk.
Qed.

Lemma snapshot_values m : snapshot m = persisted_of <$> (range_leases m).*2.
Proof. unfold snapshot. by rewrite <- list_fmap_compose. Qed.

Lemma range_leases_lookup m id v :
  (id, v) ∈ range_leases m ↔ m !! id = Some v.
Proof. rewrite (range_leases_perm m). apply elem_of_map_to_list. Qed.

(** What the records of coerced leases load to. *)
Lemma survivors_reloaded_through_json timeout resendMax broadcast
    (vs : list DHCPLease) :
  Forall (λ v, loadable (json_coerce (persisted_of v))) vs →
  Forall2 reloaded_through_json vs
    (survivors timeout resendMax broadcast
       (json_coerce <$> (persisted_of <$> vs))).
Proof.
  induction 1 as [|v vs [Hns [lnk Hlnk]] _ IH]; [constructor|].
  unfold survivors. simpl. unfold resolve at 1. simpl in *.
  rewrite Hns, Hlnk. simpl.
  constructor; [|exact IH].
  by repeat split.
Qed.

Lemma valid_strings_coerce v :
  valid_strings v → json_coerce (persisted_of v) = persisted_of v.
Proof.
  intros (H1 & H2 & H3 & H4 & H5). unfold json_coerce, persisted_of. simpl.
  unfold utf8_ValidString in *. by rewrite H1, H2, H3, H4, H5.
Qed.

Lemma reloaded_through_json_valid v v' :
  valid_strings v → reloaded_through_json v v' → reloaded_from v v'.
Proof.
  intros (H1 & H2 & H3 & H4 & H5) (? & ? & ? & ? & ? & ? & ? & ? & Hl).
  unfold utf8_ValidString in *. rewrite H2, H5 in Hl.
  split; [|exact Hl]. repeat split; congruence.
Qed.

Lemma Forall2_reloaded_valid (vs ls : list DHCPLease) :
  Forall2 reloaded_through_json vs ls → Forall valid_strings vs →
  Forall2 reloaded_from vs ls.
Proof.
  induction 1 as [|v l vs ls Hvl _ IH]; [constructor|].
  intros [Hv Hvs]%Forall_cons. constructor; [|by apply IH].
  by apply reloaded_through_json_valid.
Qed.

(** C6 (amended). Persisting a registry and loading the file again gives,
    for every lease, a lease with the same acknowledgement and times and with
    the client id, workload namespace and name and namespace path coerced to
    valid UTF-8, its link being the one the coerced name resolves to; so a
    lease whose persisted strings are valid UTF-8 comes back equivalent, all
    fields preserved and the link re-resolved by name.  This holds when the
    file is written (serialisation and write succeed), the JSON library gives
    back what it encoded with strings coerced to valid UTF-8, and every
    lease's namespace still exists and holds its link. *)
Theorem persist_then_load_roundtrip_utf8
    (m : gmap string DHCPLease) (w : World)
    (timeout resendMax : Duration) (broadcast : bool) :
  json_codec_law →
  write_fault w = None →
  (PersistActiveLeases savedLeaseLocation m w).1 = None →
  (∀ id v, m !! id = Some v → loadable (json_coerce (persisted_of v))) →
  ∃ loaded w2,
    LoadSavedLeases savedLeaseLocation timeout resendMax broadcast
      (PersistActiveLeases savedLeaseLocation m w).2 = ((loaded, None), w2) ∧
    Forall2 reloaded_through_json (range_leases m).*2 loaded ∧
    ((∀ id v, m !! id = Some v → valid_strings v) →
     Forall2 reloaded_from (range_leases m).*2 loaded) ∧
    (∀ id v, m !! id = Some v →
       ∃ v', v' ∈ loaded ∧ reloaded_through_json v v' ∧
             (valid_strings v → reloaded_from v v')).
Proof.
  intros Hjson Hw Hok Hloadable.
  destruct (json_Marshal (snapshot m)) as [b|err] eqn:Hb.
  2:{ unfold PersistActiveLeases in Hok. run. by rewrite Hb in Hok. }
  destruct (PersistActiveLeases_writes savedLeaseLocation m w b Hb Hw)
    as (_ & Hfiles & _).
  set (w1 := (PersistActiveLeases savedLeaseLocation m w).2) in *.
  assert (files w1 !! savedLeaseLocation = Some b) as Hfile.
  { rewrite Hfiles. apply lookup_insert_eq. }
  pose proof (Hjson _ _ Hb) as Hdec.
  destruct (json_Unmarshal_leases b) as [recs perr] eqn:Hun.
  simpl in Hdec. subst recs.
  rewrite (LoadSavedLeases_of_file _ _ _ _ _ _ _ _ Hfile Hun).
  assert (Forall (λ v, loadable (json_coerce (persisted_of v)))
            (range_leases m).*2) as Hall.
  { apply Forall_forall. intros v Hv.
    apply list_elem_of_fmap in Hv as ([id v'] & -> & Hin).
    apply range_leases_lookup in Hin. by eapply Hloadable. }
  destruct (LoadSavedLeases_loop_survivors timeout resendMax broadcast
              (json_coerce <$> snapshot m) [] w1) as (logs & Hloop & _).
  { rewrite snapshot_values. apply Forall_fmap, Forall_fmap.
    eapply Forall_impl; [exact Hall|]. intros v Hv. by right. }
  rewrite Hloop. simpl.
  pose proof (survivors_reloaded_through_json timeout resendMax broadcast _ Hall)
    as Hre.
  rewrite <- snapshot_values in Hre.
  eexists _, _. split; [reflexivity|]. split; [exact Hre|]. split.
  - intros Hvalid. apply (Forall2_reloaded_valid _ _ Hre).
    apply Forall_forall. intros v Hv.
    apply list_elem_of_fmap in Hv as ([id v'] & -> & Hin).
    apply range_leases_lookup in Hin. by eapply Hvalid.
  - intros id v Hv.
    assert (v ∈ (range_leases m).*2) as Hin.
    { apply list_elem_of_fmap. exists (id, v). split; [done|].
      by apply range_leases_lookup. }
    apply list_elem_of_lookup in Hin as [i Hi].
    destruct (Forall2_lookup_l _ _ _ _ _ Hre Hi) as (v' & Hi' & Hrel).
    exists v'. split_and!; [by eapply list_elem_of_lookup_2|done|].
    intros Hvalid. by apply reloaded_through_json_valid.
Qed.

(** C4. A lease file that fails to parse, leaving nothing decoded, is taken
    by [LoadSavedLeases] for an empty file: no lease, no error, and the world
    unchanged, so that the failure is not logged; [newDHCP] then goes straight
    on to persist the empty registry, and when that write succeeds its trace
    holds no log line at all. *)
Theorem LoadSavedLeases_parse_failure_is_silent
    (timeout resendMax : Duration) (broadcast : bool)
    (w : World) (file : string) (e : error) :
  files w !! savedLeaseLocation = Some file →
  json_Unmarshal_leases file = ([], Some e) →
  LoadSavedLeases savedLeaseLocation timeout resendMax broadcast w
    = (([], None), w) ∧
  ∃ r w' out,
    newDHCP timeout resendMax broadcast w = (r, w') ∧
    trace w' = trace w ++ EvPersist savedLeaseLocation (snapshot ∅) :: out ∧
    (write_fault w = None → existsb is_log out = false).
Proof.
  intros Hfile Hdec.
  assert (LoadSavedLeases savedLeaseLocation timeout resendMax broadcast w
          = (([], None), w)) as Hload.
  { rewrite (LoadSavedLeases_of_file _ _ _ _ _ _ _ _ Hfile Hdec). done. }
  split; [done|].
  rewrite (newDHCP_after_load _ _ _ _ _ _ _ Hload). simpl.
  rewrite add_trace_nil. unfold mret, M_ret.
  unfold PersistActiveLeases, WriteFile. run.
  destruct (json_Marshal (snapshot ∅)) as [b|err]; run.
  - destruct (write_fault w) as [e'|] eqn:Hw; run.
    + eexists _, _, _. split; [reflexivity|]. simpl.
      rewrite <- !app_assoc. split; [reflexivity|]. done.
    + eexists _, _, _. split; [reflexivity|]. simpl.
      rewrite <- !app_assoc. split; [reflexivity|]. done.
  - eexists _, _, []. split; [reflexivity|]. done.
Qed.

(** A failed write is logged by [PersistActiveLeases] and not returned. *)
Lemma PersistActiveLeases_write_failure fileName m w b e :
  json_Marshal (snapshot m) = inl b →
  write_fault w = Some e →
  PersistActiveLeases fileName m w =
  (None, add_trace w [EvPersist fileName (snapshot m);
                      EvWriteFile fileName b (Some e);
                      EvLogPrintf "Error while saving: %v" e]).
Proof.
  intros Hb Hw. unfold PersistActiveLeases, WriteFile, add_trace. run.
  rewrite Hb. run. rewrite Hw. run. by rewrite <- !app_assoc.
Qed.

(** *** Mutations and persistence *)

Lemma snapshot_reflects m w b :
  json_Marshal (snapshot m) = inl b →
  files w !! savedLeaseLocation = Some b →
  ∀ d, leases d = m → file_reflects w d.
Proof.
  intros Hb Hfile d <-. exists (snapshot (leases d)), b.
  split_and!; [apply snapshot_perm|done|done].
Qed.

(** [clearLease]: the removal, then the persistence attempt, all inside one
    mutex section. *)
Lemma clearLease_trace d id w :
  ∃ out,
    (clearLease d id w).1 = with_leases d (delete id (leases d)) ∧
    trace (clearLease d id w).2 =
      trace w ++ [EvLock; EvDelete id;
                  EvPersist savedLeaseLocation (snapshot (delete id (leases d)))]
              ++ out ++ [EvUnlock] ∧
    forallb is_output out = true.
Proof.
  run.
  set (w1 := {| files := files w; write_fault := write_fault w; trace := _ |}).
  destruct (PersistActiveLeases_trace savedLeaseLocation
              (delete id (leases d)) w1) as (out & Htr & Hout).
  destruct (PersistActiveLeases savedLeaseLocation (delete id (leases d)) w1)
    as [[e|] w2]; simpl in *.
  - exists (out ++ [EvPrintf "Failed to persist: %v" [] (Some e)]).
    rewrite Htr. subst w1. simpl. rewrite <- !app_assoc. simpl.
    split_and!; [done|done|]. by rewrite forallb_app, Hout.
  - exists out. rewrite Htr. subst w1. simpl. rewrite <- !app_assoc. simpl.
    by split_and!.
Qed.

Lemma clearLease_writes d id w b :
  json_Marshal (snapshot (delete id (leases d))) = inl b →
  write_fault w = None →
  files (clearLease d id w).2 !! savedLeaseLocation = Some b.
Proof.
  intros Hb Hw. run.
  set (w1 := {| files := files w; write_fault := write_fault w; trace := _ |}).
  destruct (PersistActiveLeases_writes savedLeaseLocation
              (delete id (leases d)) w1 b Hb Hw) as (Herr & Hfiles & _).
  destruct (PersistActiveLeases savedLeaseLocation (delete id (leases d)) w1)
    as [[e|] w2]; simpl in *; [done|].
  rewrite Hfiles. apply lookup_insert_eq.
Qed.

Lemma persisted_before_unlock_output out tr :
  forallb is_output out = true →
  persisted_before_unlock (out ++ tr) = persisted_before_unlock tr.
Proof.
  induction out as [|e out IH]; [done|]. simpl.
  intros [He Hout]%andb_prop. specialize (IH Hout).
  by destruct e.
Qed.

(** A successful [Allocate], step by step. *)
Lemma Allocate_success d args result w d' result' w' :
  Allocate d args result w = ((d', result', None), w') →
  ∃ conf ipamArgs optsRequesting optsProviding l ipn,
    json_Unmarshal_conf (StdinData args) = inl conf ∧
    LoadArgs (Args args) = inl ipamArgs ∧
    prepareOptions (Args args) (IPAM_ProvideOptions conf)
                   (IPAM_RequestOptions conf)
      = inl (optsRequesting, optsProviding) ∧
    let id := generateClientID (ContainerID args) (NetConf_Name conf)
                               (IfName args) in
    let hostNetns := hostNetnsPrefix d +:+ Netns args in
    AcquireLease id hostNetns (IfName args) optsRequesting optsProviding
      ipamArgs (clientTimeout d) (clientResendMax d) (broadcast d) = inl l ∧
    lease_IPNet l = inl ipn ∧
    d' = with_leases d (<[id := l]> (leases d)) ∧
    result' = {| IPs := [ {| Address := ipn; Gateway := lease_Gateway l |} ];
                 Routes := lease_Routes l |} ∧
    PersistActiveLeases savedLeaseLocation (leases d')
      (add_trace w [EvAcquireLease id hostNetns (IfName args);
                    EvLock; EvInsert id; EvUnlock]) = (None, w').
Proof.
  unfold Allocate. intros Halloc.
  destruct (json_Unmarshal_conf (StdinData args)) as [conf|?] eqn:Hconf;
    [|done].
  destruct (LoadArgs (Args args)) as [ipamArgs|?] eqn:Hargs; [|done].
  destruct (prepareOptions _ _ _) as [[optsRequesting optsProviding]|?]
    eqn:Hopts; [|done].
  revert Halloc. run.
  destruct (AcquireLease _ _ _ _ _ _ _ _ _) as [l|?] eqn:Hacq; [|done].
  destruct (lease_IPNet l) as [ipn|?] eqn:Hipn; [|done].
  run. rewrite <- !app_assoc. simpl. intros Halloc.
  exists conf, ipamArgs, optsRequesting, optsProviding, l, ipn.
  unfold add_trace.
  destruct (PersistActiveLeases _ _ _) as [[e|] w2] eqn:Hp; [done|].
  injection Halloc as <- <- <-. simpl. by split_and!.
Qed.

Lemma Release_present_runs_clearLease d args w conf l :
  json_Unmarshal_conf (StdinData args) = inl conf →
  leases d !! generateClientID (ContainerID args) (NetConf_Name conf)
                               (IfName args) = Some l →
  Release d args w =
  let r := clearLease d (generateClientID (ContainerID args)
                           (NetConf_Name conf) (IfName args))
             (add_trace w [EvLock; EvUnlock; EvStop l]) in
  ((r.1, None), r.2).
Proof.
  intros Hconf Hpresent. unfold Release, getLease.
  rewrite Hconf. cbv beta iota zeta. rewrite Hpresent.
  unfold add_trace. run. rewrite <- !app_assoc. simpl.
  by destruct (PersistActiveLeases _ _ _) as [[e|] w2].
Qed.

(** Whatever happens to the lease file, a [Release] whose request parses
    returns no error. *)
Lemma Release_ignores_persistence_failure d args w conf :
  json_Unmarshal_conf (StdinData args) = inl conf →
  (Release d args w).1.2 = None.
Proof.
  intros Hconf.
  destruct (leases d !! generateClientID (ContainerID args) (NetConf_Name conf)
                                         (IfName args)) as [l|] eqn:Hl.
  - by rewrite (Release_present_runs_clearLease _ _ _ _ _ Hconf Hl).
  - unfold Release, getLease. rewrite Hconf. cbv beta iota zeta.
    rewrite Hl. by run.
Qed.

(** C2 (amended). A Release whose computed client id is in the registry
    returns no error.  It looks the lease up in one mutex section, calls Stop
    on it while the mutex is free and the lease is still registered, and then,
    in a second mutex section, removes it from the registry and persists the
    registry without it: when the registry serialises and the write succeeds
    the lease file is replaced by the serialised registry, and otherwise the
    failure is logged and the file is left as it was. *)
Theorem Release_present_stops_then_removes_and_persists (d : DHCP)
    (args : CmdArgs) (w : World)
    (conf : NetConf ProvideOption RequestOption) (l : DHCPLease) :
  json_Unmarshal_conf (StdinData args) = inl conf →
  leases d !! generateClientID (ContainerID args) (NetConf_Name conf)
                               (IfName args) = Some l →
  let id := generateClientID (ContainerID args) (NetConf_Name conf)
                             (IfName args) in
  let d' := with_leases d (delete id (leases d)) in
  let looked_up := trace w ++ [EvLock; EvUnlock] in
  let removed :=
    looked_up ++ [EvStop l; EvLock; EvDelete id;
                  EvPersist savedLeaseLocation (snapshot (leases d'))] in
  ∃ w',
    Release d args w = ((d', None), w') ∧
    write_fault w' = write_fault w ∧
    match json_Marshal (snapshot (leases d')), write_fault w with
    | inl b, None =>
        files w' = <[savedLeaseLocation := b]> (files w) ∧
        file_reflects w' d' ∧
        trace w' = removed ++ [EvWriteFile savedLeaseLocation b None; EvUnlock]
    | inl b, Some e =>
        files w' = files w ∧
        trace w' = removed ++ [EvWriteFile savedLeaseLocation b (Some e);
                               EvLogPrintf "Error while saving: %v" e;
                               EvUnlock]
    | inr e, _ =>
        files w' = files w ∧
        trace w' = removed ++ [EvPrintf "Failed to persist: %v" [] (Some e);
                               EvUnlock]
    end ∧
    mutex_held looked_up = false ∧
    mutex_held (looked_up ++ [EvStop l]) = false ∧
    mutex_held removed = true.
Proof.
  intros Hconf Hpresent id d' looked_up removed.
  rewrite (Release_present_runs_clearLease _ _ _ _ _ Hconf Hpresent).
  cbv zeta. fold id.
  exists (clearLease d id (add_trace w [EvLock; EvUnlock; EvStop l])).2.
  split; [| split].
  - destruct (clearLease_trace d id (add_trace w [EvLock; EvUnlock; EvStop l]))
      as (out & -> & _). done.
  - unfold clearLease, PersistActiveLeases, WriteFile. run.
    destruct (json_Marshal _); run; [|done]. by destruct (write_fault w).
  - subst removed looked_up d'. simpl.
    unfold clearLease, PersistActiveLeases, WriteFile. run.
    destruct (json_Marshal (snapshot (delete id (leases d)))) as [b|e] eqn:Hb;
      run.
    + destruct (write_fault w) as [e|] eqn:Hw; run.
      * rewrite <- !app_assoc. simpl. rewrite !mutex_held_app. done.
      * rewrite <- !app_assoc. simpl. rewrite !mutex_held_app.
        split_and!; try done.
        eapply snapshot_reflects; [exact Hb| |done]. simpl.
        apply lookup_insert_eq.
    + rewrite <- !app_assoc. simpl. rewrite !mutex_held_app.
      by destruct (write_fault w).
Qed.

(** An [Allocate] that acquired its lease and serialised the registry
    returns no error, whether or not the lease file could be written. *)
Lemma Allocate_ignores_write_failure d args result w conf ipamArgs
    optsRequesting optsProviding l ipn b :
  json_Unmarshal_conf (StdinData args) = inl conf →
  LoadArgs (Args args) = inl ipamArgs →
  prepareOptions (Args args) (IPAM_ProvideOptions conf)
                 (IPAM_RequestOptions conf)
    = inl (optsRequesting, optsProviding) →
  let id := generateClientID (ContainerID args) (NetConf_Name conf)
                             (IfName args) in
  AcquireLease id (hostNetnsPrefix d +:+ Netns args) (IfName args)
    optsRequesting optsProviding ipamArgs
    (clientTimeout d) (clientResendMax d) (broadcast d) = inl l →
  lease_IPNet l = inl ipn →
  json_Marshal (snapshot (<[id := l]> (leases d))) = inl b →
  (Allocate d args result w).1.2 = None.
Proof.
  intros Hconf Hargs Hopts id Hacq Hipn Hb. unfold Allocate.
  rewrite Hconf, Hargs, Hopts. run. fold id. rewrite Hacq, Hipn. run.
  set (w1 := {| files := files w; write_fault := write_fault w; trace := _ |}).
  pose proof (PersistActiveLeases_serialised savedLeaseLocation
                (<[id := l]> (leases d)) w1 b Hb) as Hnil.
  destruct (PersistActiveLeases savedLeaseLocation (<[id := l]> (leases d)) w1)
    as [err w2]. simpl in Hnil. by subst err.
Qed.

(** C1 (amended). A removal by [clearLease] is followed by a persistence
    attempt before the mutex is released.  An insertion by a successful
    [Allocate] is followed by a persistence attempt of the new registry
    before [Allocate] returns.  After a successful [Allocate], and after a
    [Release] of a registered client id whose registry serialises, the lease
    file holds exactly the records of the in-memory registry provided the
    write of the file succeeds. *)
Theorem mutations_are_followed_by_persistence (d : DHCP) (w : World) :
  (∀ id, ∃ out,
     (clearLease d id w).1 = with_leases d (delete id (leases d)) ∧
     trace (clearLease d id w).2 =
       trace w ++ [EvLock; EvDelete id;
                   EvPersist savedLeaseLocation
                     (snapshot (delete id (leases d)))] ++ out ++ [EvUnlock] ∧
     forallb is_output out = true ∧
     persisted_before_unlock
       ([EvLock; EvDelete id;
         EvPersist savedLeaseLocation (snapshot (delete id (leases d)))]
          ++ out ++ [EvUnlock]) = true) ∧
  (∀ args result d' result' w',
     Allocate d args result w = ((d', result', None), w') →
     ∃ id l acq out,
       leases d' = <[id := l]> (leases d) ∧
       trace w' =
         trace w ++ [acq; EvLock; EvInsert id; EvUnlock;
                     EvPersist savedLeaseLocation (snapshot (leases d'))]
                 ++ out ∧
       forallb is_output out = true ∧
       (write_fault w = None → file_reflects w' d')) ∧
  (∀ args conf l d' w' b,
     json_Unmarshal_conf (StdinData args) = inl conf →
     leases d !! generateClientID (ContainerID args) (NetConf_Name conf)
                                  (IfName args) = Some l →
     Release d args w = ((d', None), w') →
     json_Marshal (snapshot (leases d')) = inl b →
     write_fault w = None →
     file_reflects w' d').
Proof.
  split_and!.
  - intros id. destruct (clearLease_trace d id w) as (out & Hd & Htr & Hout).
    exists out. split_and!; try done.
    simpl. by rewrite persisted_before_unlock_output.
  - intros args result d' result' w' Halloc.
    apply Allocate_success in Halloc
      as (conf & ipamArgs & oR & oP & l & ipn & _ & _ & _ & Hacq & _ & Hd' & _
          & Hp).
    cbv zeta in *.
    set (id := generateClientID _ _ _) in *.
    set (w0 := add_trace w _) in Hp.
    destruct (PersistActiveLeases_trace savedLeaseLocation (leases d') w0)
      as (out & Htr & Hout).
    exists id, l, (EvAcquireLease id (hostNetnsPrefix d +:+ Netns args)
                     (IfName args)), out.
    split_and!.
    + by rewrite Hd'.
    + rewrite Hp in Htr. simpl in Htr. rewrite Htr. subst w0. simpl.
      by rewrite <- !app_assoc.
    + done.
    + intros Hw.
      destruct (json_Marshal (snapshot (leases d'))) as [b|err] eqn:Hb.
      2:{ unfold PersistActiveLeases in Hp. revert Hp. run.
          by rewrite Hb. }
      destruct (PersistActiveLeases_writes savedLeaseLocation (leases d') w0 b
                  Hb Hw) as (_ & Hfiles & _).
      rewrite Hp in Hfiles. simpl in Hfiles.
      eapply snapshot_reflects; [exact Hb| |done].
      rewrite Hfiles. apply lookup_insert_eq.
  - intros args conf l d' w' b Hconf Hpresent Hrel Hb Hw.
    rewrite (Release_present_runs_clearLease _ _ _ _ _ Hconf Hpresent) in Hrel.
    cbv zeta in Hrel. injection Hrel as <- <-.
    set (id := generateClientID _ _ _) in *.
    set (w0 := add_trace w _) in *.
    destruct (clearLease_trace d id w0) as (_ & Hd & _).
    rewrite Hd in Hb. simpl in Hb.
    eapply snapshot_reflects; [exact Hb| |by rewrite Hd].
    by apply clearLease_writes.
Qed.

End DaemonFacts.

(** ** The properties on the concrete node *)

Section NodeFacts.

Import Node.

#[local] Existing Instance Node.node.

Local Open Scope Z_scope.

(** The lease-file table decodes what it encoded. *)
Lemma node_json_roundtrip recs b :
  json_Marshal recs = inl b → (json_Unmarshal_leases b).1 = recs.
Proof.
  simpl. unfold node_Marshal, node_Unmarshal_leases, file_table. simpl.
  repeat (destruct (decide (_ = recs)) as [<-|_];
          [intros [= <-]; vm_compute; reflexivity|]).
  discriminate.
Qed.

Lemma Release_absent_changes_nothing_witness :
  json_Unmarshal_conf (StdinData args1) = inl conf1 ∧
  leases (daemon ∅) !! "c1/mynet/eth0" = None ∧
  ∃ w',
    Release (daemon ∅) args1 fresh = ((daemon ∅, None), w') ∧
    files w' = files fresh ∧
    trace w' = trace fresh ++ [EvLock; EvUnlock].
Proof.
  split; [reflexivity|]. split; [reflexivity|].
  apply (Release_absent_changes_nothing (env := node)
           (daemon ∅) args1 fresh conf1);
    reflexivity.
Defined.

Lemma Release_present_stops_then_removes_and_persists_witness :
  json_Unmarshal_conf (StdinData args1) = inl conf1 ∧
  leases (daemon {[ "c1/mynet/eth0" := lease1 ]}) !! "c1/mynet/eth0"
    = Some lease1 ∧
  ∃ w',
    Release (daemon {[ "c1/mynet/eth0" := lease1 ]}) args1 fresh
      = ((daemon ∅, None), w') ∧
    write_fault w' = None ∧
    (files w' = <[savedLeaseLocation := "null"]> (files fresh) ∧
     file_reflects w' (daemon ∅) ∧
     trace w' =
       [EvLock; EvUnlock; EvStop lease1; EvLock; EvDelete "c1/mynet/eth0";
        EvPersist savedLeaseLocation []]
         ++ [EvWriteFile savedLeaseLocation "null" None; EvUnlock]) ∧
    mutex_held [EvLock; EvUnlock] = false ∧
    mutex_held ([EvLock; EvUnlock] ++ [EvStop lease1]) = false ∧
    mutex_held [EvLock; EvUnlock; EvStop lease1; EvLock;
                EvDelete "c1/mynet/eth0"; EvPersist savedLeaseLocation []]
      = true.
Proof.
  split; [reflexivity|]. split; [vm_compute; reflexivity|].
  assert (json_Unmarshal_conf (StdinData args1) = inl conf1) as Hconf
    by reflexivity.
  assert (leases (daemon {[ "c1/mynet/eth0" := lease1 ]})
            !! generateClientID (ContainerID args1) (NetConf_Name conf1)
                                (IfName args1) = Some lease1) as Hpresent
    by (vm_compute; reflexivity).
  exact (Release_present_stops_then_removes_and_persists (env := node)
           (daemon {[ "c1/mynet/eth0" := lease1 ]}) args1 fresh conf1 lease1
           Hconf Hpresent).
Defined.

(** Counterexample to C2 as it was stated: the lease is not removed before
    it is stopped.  In the Release of a registered lease no Stop comes after
    the removal; the Stop comes first, and the removal and the persistence
    follow it. *)
Lemma Release_stops_before_removal :
  leases (daemon {[ "c1/mynet/eth0" := lease1 ]}) !! "c1/mynet/eth0"
    = Some lease1 ∧
  (Release (daemon {[ "c1/mynet/eth0" := lease1 ]}) args1 fresh).1.2 = None ∧
  trace (Release (daemon {[ "c1/mynet/eth0" := lease1 ]}) args1 fresh).2 =
    [EvLock; EvUnlock; EvStop lease1; EvLock; EvDelete "c1/mynet/eth0";
     EvPersist savedLeaseLocation [];
     EvWriteFile savedLeaseLocation "null" None; EvUnlock] ∧
  followed_by is_removal is_stop
    (trace (Release (daemon {[ "c1/mynet/eth0" := lease1 ]}) args1 fresh).2)
    = false ∧
  followed_by is_stop is_removal
    (trace (Release (daemon {[ "c1/mynet/eth0" := lease1 ]}) args1 fresh).2)
    = true.
Proof. split_and!; vm_compute; reflexivity. Qed.

Lemma newDHCP_reconciles_loaded_leases_witness :
  LoadSavedLeases savedLeaseLocation 10 62 false (restarted "[c1,c4]")
    = (([lease1; lease4], None), restarted "[c1,c4]") ∧
  orchestrator_fails lease4 ∧
  ∃ e w', newDHCP 10 62 false (restarted "[c1,c4]") = ((None, Some e), w').
Proof.
  assert (LoadSavedLeases savedLeaseLocation 10 62 false (restarted "[c1,c4]")
          = (([lease1; lease4], None), restarted "[c1,c4]")) as Hload
    by (vm_compute; reflexivity).
  assert (orchestrator_fails lease4) as Hfail.
  { split; [discriminate|].
    exists (LibError "context deadline exceeded"). split; reflexivity. }
  split; [exact Hload|]. split; [exact Hfail|].
  destruct (newDHCP_reconciles_loaded_leases (env := node) 10 62 false
              (restarted "[c1,c4]") (restarted "[c1,c4]") [lease1; lease4] None
              Hload) as (_ & Habort & _).
  apply Habort. apply Exists_cons_tl, Exists_cons_hd. exact Hfail.
Defined.

Lemma LoadSavedLeases_skips_gone_fails_on_link_witness :
  files (restarted "[c1,c2/net9]") !! savedLeaseLocation
    = Some "[c1,c2/net9]" ∧
  json_Unmarshal_leases "[c1,c2/net9]" = ([rec1; rec3], None) ∧
  link_unresolved rec3 ∧
  ∃ e w', LoadSavedLeases savedLeaseLocation 10 62 false
            (restarted "[c1,c2/net9]") = (([], Some e), w').
Proof.
  assert (files (restarted "[c1,c2/net9]") !! savedLeaseLocation
          = Some "[c1,c2/net9]") as Hfile by (vm_compute; reflexivity).
  assert (json_Unmarshal_leases "[c1,c2/net9]" = ([rec1; rec3], None))
    as Hdec by (vm_compute; reflexivity).
  assert (link_unresolved rec3) as Hbad.
  { split; [reflexivity|]. exists (LibError "Link not found"). reflexivity. }
  split; [exact Hfile|]. split; [exact Hdec|]. split; [exact Hbad|].
  destruct (LoadSavedLeases_skips_gone_fails_on_link (env := node)
              savedLeaseLocation 10 62 false (restarted "[c1,c2/net9]")
              "[c1,c2/net9]" [rec1; rec3] None Hfile Hdec)
    as (_ & _ & Hfatal & _).
  apply Hfatal. apply Exists_cons_tl, Exists_cons_hd. exact Hbad.
Defined.

(** Counterexample to C5 as it was stated: with the loadable record of container c1 followed
    by a record whose namespace exists but whose link [net9] does not,
    [LoadSavedLeases] returns an error and no lease; the loadable record is
    not returned. *)
Lemma link_failure_discards_loadable_records :
  let r := LoadSavedLeases savedLeaseLocation 10 62 false
             (restarted "[c1,c2/net9]") in
  json_Unmarshal_leases "[c1,c2/net9]" = ([rec1; rec3], None) ∧
  loadable rec1 ∧
  link_unresolved rec3 ∧
  r.1 = ([], Some (Errorf
                "couldn't look up link '%s' in container netns '%s': %v"
                ["net9"; "/var/run/netns/c2"]
                (Errorf "error looking up %q: %v" ["net9"]
                        (LibError "Link not found")))) ∧
  ¬ ∃ v, v ∈ r.1.1 ∧ clientID v = ClientID rec1.
Proof.
  split_and!.
  - vm_compute. reflexivity.
  - split; [reflexivity|]. exists eth0. reflexivity.
  - split; [reflexivity|]. exists (LibError "Link not found"). reflexivity.
  - vm_compute. reflexivity.
  - intros (v & Hin & _). vm_compute in Hin. by apply elem_of_nil in Hin.
Qed.

Lemma LoadSavedLeases_parse_failure_is_silent_witness :
  files (restarted "[{") !! savedLeaseLocation = Some "[{" ∧
  json_Unmarshal_leases "[{"
    = ([], Some (LibError "unexpected end of JSON input")) ∧
  LoadSavedLeases savedLeaseLocation 10 62 false (restarted "[{")
    = (([], None), restarted "[{").
Proof.
  assert (files (restarted "[{") !! savedLeaseLocation = Some "[{") as Hfile
    by (vm_compute; reflexivity).
  assert (json_Unmarshal_leases "[{"
          = ([], Some (LibError "unexpected end of JSON input"))) as Hdec
    by (vm_compute; reflexivity).
  split; [exact Hfile|]. split; [exact Hdec|].
  exact (proj1 (LoadSavedLeases_parse_failure_is_silent (env := node)
                  10 62 false (restarted "[{") "[{" _ Hfile Hdec)).
Defined.

(** Counterexample to C1 as it was stated: on a node whose lease file cannot be written,
    [Allocate] for container c1 succeeds; the persistence attempt that
    follows its insertion comes after the mutex was released, and afterwards
    the lease file does not hold the records of the registry (there is no
    lease file at all). *)
Lemma Allocate_persists_outside_mutex_and_tolerates_write_failure :
  let r := Allocate (daemon ∅) args1 no_result read_only in
  r.1.2 = None ∧
  leases r.1.1.1 !! "c1/mynet/eth0" = Some lease1 ∧
  persisted_before_unlock (trace r.2) = false ∧
  persist_follows (trace r.2) = true ∧
  ¬ file_reflects r.2 r.1.1.1.
Proof.
  split_and!.
  - vm_compute. reflexivity.
  - vm_compute. reflexivity.
  - vm_compute. reflexivity.
  - vm_compute. reflexivity.
  - intros (recs & b & _ & _ & Hfile). vm_compute in Hfile. discriminate.
Qed.

Lemma mutations_are_followed_by_persistence_witness :
  let r := Allocate (daemon ∅) args1 no_result fresh in
  r.1.2 = None ∧ write_fault fresh = None ∧ file_reflects r.2 r.1.1.1.
Proof.
  set (r := Allocate (daemon ∅) args1 no_result fresh).
  assert (r = ((r.1.1.1, r.1.1.2, None), r.2)) as Hr
    by (vm_compute; reflexivity).
  split; [vm_compute; reflexivity|]. split; [reflexivity|].
  destruct (mutations_are_followed_by_persistence (env := node)
              (daemon ∅) fresh) as (_ & Halloc & _).
  destruct (Halloc args1 no_result _ _ _ Hr) as (id & l & acq & out & _ & _ & _
                                                  & Hfile).
  apply Hfile. reflexivity.
Defined.

End NodeFacts.

(** *** The lease file and strings that are not valid UTF-8 *)

Section Utf8Facts.

Import Node Utf8Node.

Local Open Scope Z_scope.

(** The codec of the node coerces and decodes what it encoded. *)
Lemma utf8_node_codec_law : json_codec_law (env := utf8_node).
Proof.
  intros recs b. simpl. unfold utf8_Marshal, utf8_Unmarshal_leases, utf8_table.
  simpl.
  repeat (destruct (decide (_ = json_coerce <$> recs)) as [<-|_];
          [intros [= <-]; vm_compute; reflexivity|]).
  discriminate.
Qed.

Lemma persist_then_load_roundtrip_utf8_witness :
  ∃ loaded w2,
    LoadSavedLeases (env := utf8_node) savedLeaseLocation 10 62 false
      (PersistActiveLeases (env := utf8_node) savedLeaseLocation
         {[ "c1/mynet/eth0" := lease1 ]} fresh).2 = ((loaded, None), w2) ∧
    Forall2 (reloaded_through_json (env := utf8_node))
      (range_leases (Env := utf8_node)
         ({[ "c1/mynet/eth0" := lease1 ]} : gmap string DHCPLease)).*2
      loaded ∧
    ((∀ id v, ({[ "c1/mynet/eth0" := lease1 ]} : gmap string DHCPLease) !! id
              = Some v → valid_strings v) →
     Forall2 (reloaded_from (env := utf8_node))
       (range_leases (Env := utf8_node)
          ({[ "c1/mynet/eth0" := lease1 ]} : gmap string DHCPLease)).*2
       loaded) ∧
    (∀ id v, ({[ "c1/mynet/eth0" := lease1 ]} : gmap string DHCPLease) !! id
             = Some v →
       ∃ v', v' ∈ loaded ∧ reloaded_through_json (env := utf8_node) v v' ∧
             (valid_strings v → reloaded_from (env := utf8_node) v v')).
Proof.
  apply (persist_then_load_roundtrip_utf8 (env := utf8_node)
           {[ "c1/mynet/eth0" := lease1 ]} fresh 10 62 false).
  - exact utf8_node_codec_law.
  - reflexivity.
  - vm_compute. reflexivity.
  - intros id v [_ <-]%lookup_singleton_Some.
    split; [reflexivity|]. exists eth0. reflexivity.
Defined.

(** Counterexample to C6 as it was stated: the lease that [Allocate]
    registers for a container id whose last character is cut in two by
    [generateClientID] comes back from the lease file under another client
    id. *)
Lemma persisted_client_id_is_coerced :
  (Allocate (env := utf8_node) (daemon ∅) accented_args no_result fresh).1.1.1
    = daemon {[ cut_id := cut_lease ]} ∧
  clientID cut_lease = generateClientID accented_container_id "mynet" "eth0" ∧
  (PersistActiveLeases (env := utf8_node) savedLeaseLocation
     {[ cut_id := cut_lease ]} fresh).1 = None ∧
  ∃ v' w2,
    LoadSavedLeases (env := utf8_node) savedLeaseLocation 10 62 false
      (PersistActiveLeases (env := utf8_node) savedLeaseLocation
         {[ cut_id := cut_lease ]} fresh).2 = (([v'], None), w2) ∧
    clientID v' ≠ clientID cut_lease ∧
    ¬ reloaded_from (env := utf8_node) cut_lease v'.
Proof.
  split; [vm_compute; reflexivity|].
  split; [reflexivity|]. split; [vm_compute; reflexivity|].
  eexists _, _. split; [vm_compute; reflexivity|].
  assert (Hne : ∀ v' : string, String.eqb v' (clientID cut_lease) = false →
                               v' ≠ clientID cut_lease).
  { intros v' Hv' ->. by rewrite String.eqb_refl in Hv'. }
  split.
  - apply Hne. vm_compute. reflexivity.
  - intros [[Hid _] _]. revert Hid. apply Hne. vm_compute. reflexivity.
Qed.

End Utf8Facts.

(** ** Packet exchange *)

Section DhcpFacts.

Import Dhcp4 Dhcp.

Lemma AddOption_nonempty p o value :
  p ≠ [] → AddOption p o value = Some (removelast p ++ tlv (o, value) ++ [End]).
Proof. intros Hp. destruct p; [done|]. unfold AddOption, tlv. simpl. done. Qed.

(** The range loop in closed form. *)
Lemma range_loop_closed_form entries packet :
  packet ≠ [] →
  foldl (λ acc kv, p ← acc; AddOption p kv.1 kv.2) (Some packet) entries
  = Some (with_options packet entries).
Proof.
  intros Hp. destruct entries as [|kv entries]; [done|].
  revert packet kv Hp. induction entries as [|kv' entries IH];
    intros packet kv Hp.
  - simpl. rewrite AddOption_nonempty by done.
    destruct kv. simpl. by rewrite app_nil_r.
  - change (foldl ?f ?a (kv :: ?l)) with (foldl f (f a kv) l).
    cbv beta.
    change (Some packet ≫= λ p : Packet, AddOption p kv.1 kv.2)
      with (AddOption packet kv.1 kv.2).
    rewrite AddOption_nonempty by done.
    rewrite IH by (by destruct (removelast packet)).
    unfold with_options. f_equal.
    rewrite (app_assoc (removelast packet) (tlv (kv.1, kv.2)) [End]).
    rewrite removelast_last.
    destruct kv as [o value]. rewrite (fmap_cons tlv (o, value)).
    change (mjoin (tlv (o, value) :: ?l)) with (tlv (o, value) ++ mjoin l).
    by rewrite <- !app_assoc.
Qed.

Lemma range_AddOption_closed_form order options packet :
  packet ≠ [] →
  range_AddOption order options packet
  = Some (with_options packet (order options)).
Proof. apply range_loop_closed_form. Qed.

Lemma with_options_length packet entries entries' :
  entries ≡ₚ entries' →
  length (with_options packet entries) = length (with_options packet entries').
Proof.
  intros Hperm. destruct entries as [|kv entries].
  - by apply Permutation_nil_l in Hperm as <-.
  - destruct entries' as [|kv' entries'].
    + by apply Permutation_nil_r in Hperm.
    + unfold with_options. rewrite !length_app. f_equal. f_equal.
      apply Permutation_length. by rewrite Hperm.
Qed.

Lemma PadToMinSize_length p p' :
  length p = length p' → length (PadToMinSize p) = length (PadToMinSize p').
Proof.
  intros Hlen. unfold PadToMinSize. rewrite Hlen.
  destruct (Nat.ltb _ _); [|done].
  by rewrite !length_app, !repeat_length, Hlen.
Qed.

Lemma small_dictionary_one_order (options : Options) order order' :
  valid_order order → valid_order order' →
  size options ≤ 1 →
  order options = order' options.
Proof.
  intros Hv Hv' Hsize. specialize (Hv options). specialize (Hv' options).
  assert (length (order' options) ≤ 1) as Hlen.
  { rewrite (Permutation_length Hv'). unfold Options in *.
    by rewrite length_map_to_list. }
  rewrite <- Hv' in Hv.
  destruct (order' options) as [|kv [|kv' rest]]; simpl in Hlen; [| |lia].
  - by apply Permutation_nil_r in Hv.
  - by apply Permutation_singleton_r in Hv.
Qed.

Lemma DhcpSendDiscoverPacket_closed_form c options order :
  DiscoverPacket c ≠ [] →
  DhcpSendDiscoverPacket c options order =
  let p := PadToMinSize (with_options (DiscoverPacket c) (order options)) in
  Some (p, SendPacket c p).
Proof.
  intros Hp. unfold DhcpSendDiscoverPacket.
  by rewrite range_AddOption_closed_form.
Qed.

Lemma DhcpSendRequest_closed_form c options offerPacket order :
  RequestPacket c offerPacket ≠ [] →
  DhcpSendRequest c options offerPacket order =
  let p := PadToMinSize
             (with_options (RequestPacket c offerPacket) (order options)) in
  Some (p, SendPacket c p).
Proof.
  intros Hp. unfold DhcpSendRequest.
  by rewrite range_AddOption_closed_form.
Qed.

(** C7 (amended). An outbound packet is its base packet without the End
    byte, followed by code, length and value of every option of the
    dictionary in the order in which the map was ranged over, End, and zero
    padding up to the minimum length.  Two assemblies from the same
    dictionary that visit it in the same order are byte-identical, as are any
    two assemblies from a dictionary of at most one option; under different
    visiting orders the packets have the same length and carry the same
    option entries in a different sequence. *)
Theorem assembly_determined_by_dictionary_and_order
    (c : Client) (options : Options) (offerPacket : Packet)
    (order order' : RangeOrder) :
  valid_order order → valid_order order' →
  DiscoverPacket c ≠ [] → RequestPacket c offerPacket ≠ [] →
  let discover o :=
    PadToMinSize (with_options (DiscoverPacket c) (o options)) in
  let request o :=
    PadToMinSize (with_options (RequestPacket c offerPacket) (o options)) in
  (DhcpSendDiscoverPacket c options order
     = Some (discover order, SendPacket c (discover order)) ∧
   DhcpSendRequest c options offerPacket order
     = Some (request order, SendPacket c (request order))) ∧
  (order options = order' options →
   assembled c options offerPacket order
   = assembled c options offerPacket order') ∧
  (size options ≤ 1 →
   assembled c options offerPacket order
   = assembled c options offerPacket order') ∧
  length (discover order) = length (discover order') ∧
  length (request order) = length (request order') ∧
  tlv <$> order options ≡ₚ tlv <$> order' options.
Proof.
  intros Hv Hv' Hd Hr discover request.
  assert (order options ≡ₚ order' options) as Hperm
    by (by rewrite (Hv options), (Hv' options)).
  assert (order options = order' options →
          assembled c options offerPacket order
          = assembled c options offerPacket order') as Hsame.
  { intros Heq. unfold assembled.
    rewrite !DhcpSendDiscoverPacket_closed_form,
            !DhcpSendRequest_closed_form by done.
    simpl. by rewrite Heq. }
  split_and!.
  - by apply DhcpSendDiscoverPacket_closed_form.
  - by apply DhcpSendRequest_closed_form.
  - exact Hsame.
  - intros Hsize. apply Hsame. by apply small_dictionary_one_order.
  - by apply PadToMinSize_length, with_options_length.
  - by apply PadToMinSize_length, with_options_length.
  - by rewrite Hperm.
Qed.


(** Counterexample to C7 as it was stated: from one dictionary of two
    options, visiting the host-name option before the class-identifier
    option or after it, both of them orders the runtime may choose, gives
    Discover packets, and Request packets, that differ in their bytes. *)
Lemma assembly_order_changes_bytes :
  let c := client_of (reply_with 5) in
  valid_order ascending ∧ valid_order descending ∧
  DhcpSendDiscoverPacket c two_options ascending
    ≠ DhcpSendDiscoverPacket c two_options descending ∧
  DhcpSendRequest c two_options (reply_with 2) ascending
    ≠ DhcpSendRequest c two_options (reply_with 2) descending.
Proof.
  split_and!.
  - intros options. reflexivity.
  - intros options. apply reverse_Permutation.
  - intros Heq.
    apply (f_equal (λ r, (λ pe, pe.1 !! 243) <$> r)) in Heq.
    vm_compute in Heq. discriminate.
  - intros Heq.
    apply (f_equal (λ r, (λ pe, pe.1 !! 243) <$> r)) in Heq.
    vm_compute in Heq. discriminate.
Qed.

Lemma assembly_determined_by_dictionary_and_order_witness :
  let c := client_of (reply_with 5) in
  length (PadToMinSize (with_options (DiscoverPacket c)
                          (ascending two_options)))
  = length (PadToMinSize (with_options (DiscoverPacket c)
                            (descending two_options))).
Proof.
  intros c.
  assert (valid_order ascending) as Hasc by (intros options; reflexivity).
  assert (valid_order descending) as Hdesc
    by (intros options; apply reverse_Permutation).
  assert (DiscoverPacket c ≠ []) as Hd by discriminate.
  assert (RequestPacket c (reply_with 2) ≠ []) as Hr by discriminate.
  exact (proj1 (proj2 (proj2 (proj2
           (assembly_determined_by_dictionary_and_order c two_options
              (reply_with 2) ascending descending Hasc Hdesc Hd Hr))))).
Defined.


End DhcpFacts.

(** ** Further properties of the daemon *)

Section RegistryFacts.

Context `{env : Env}.

(** X1. The registry behaves as a map under [setLease], [getLease] and
    [clearLease]: a lease that was set is found under its id, a cleared id is
    not found, neither touches what other ids find, clearing an id that is
    not registered leaves the registry as it was, and a lookup changes
    nothing but the trace. *)
Theorem registry_set_get_clear (d : DHCP) (id : string) (l : DHCPLease)
    (w w' : World) :
  (getLease (setLease d id l w).1 id w').1 = Some l ∧
  (getLease (clearLease d id w).1 id w').1 = None ∧
  (∀ id', id' ≠ id →
     (getLease (setLease d id l w).1 id' w').1 = (getLease d id' w').1 ∧
     (getLease (clearLease d id w).1 id' w').1 = (getLease d id' w').1) ∧
  (leases d !! id = None → (clearLease d id w).1 = d) ∧
  (getLease d id w).2 = add_trace w [EvLock; EvUnlock] ∧
  (setLease d id l w).2 = add_trace w [EvLock; EvInsert id; EvUnlock].
Proof.
  destruct (clearLease_trace d id w) as (out & Hd & _).
  rewrite Hd. unfold add_trace. run. split_and!.
  - apply lookup_insert_eq.
  - apply lookup_delete_eq.
  - intros id' Hne. split.
    + by apply lookup_insert_ne.
    + by apply lookup_delete_ne.
  - intros Habsent. unfold with_leases. rewrite delete_id by done.
    by destruct d.
  - by rewrite <- !app_assoc.
  - by rewrite <- !app_assoc.
Qed.

End RegistryFacts.

(** *** The mutex *)

Section MutexFacts.

Context `{env : Env}.

Lemma final_lock_app h tr tr' :
  final_lock h (tr ++ tr') = final_lock h tr ≫= λ h', final_lock h' tr'.
Proof.
  revert h. induction tr as [|e tr IH]; intros h; [done|].
  destruct e; simpl; try apply IH; destruct h; simpl; try done; apply IH.
Qed.

Lemma locks_ret {A} (a : A) h : locks (mret a) h h.
Proof. intros w. exists []. by rewrite app_nil_r. Qed.

Lemma locks_bind {A B} (m : M A) (k : A → M B) h0 h1 h2 :
  locks m h0 h1 → (∀ a, locks (k a) h1 h2) → locks (m ≫= k) h0 h2.
Proof.
  intros Hm Hk w. destruct (Hm w) as (evs1 & Htr1 & Hl1).
  unfold mbind, M_bind. destruct (m w) as [a w1]. simpl in Htr1.
  destruct (Hk a w1) as (evs2 & Htr2 & Hl2).
  exists (evs1 ++ evs2). rewrite Htr2, Htr1, <- app_assoc. split; [done|].
  rewrite final_lock_app, Hl1. done.
Qed.

Lemma locks_emit e h :
  e ≠ EvLock → e ≠ EvUnlock → locks (emit e) h h.
Proof. intros Hl Hu w. exists [e]. split; [done|]. by destruct e. Qed.

Lemma locks_Lock : locks (emit EvLock) false true.
Proof. intros w. by exists [EvLock]. Qed.

Lemma locks_Unlock : locks (emit EvUnlock) true false.
Proof. intros w. by exists [EvUnlock]. Qed.

Lemma locks_ReadFile fileName h : locks (ReadFile fileName) h h.
Proof.
  intros w. exists []. unfold ReadFile.
  destruct (files w !! fileName); by rewrite app_nil_r.
Qed.

Lemma locks_WriteFile fileName data h : locks (WriteFile fileName data) h h.
Proof.
  intros w. unfold WriteFile. destruct (write_fault w); by eexists [_].
Qed.

Ltac locks_step :=
  first
    [ apply locks_ret
    | apply locks_Lock
    | apply locks_Unlock
    | apply locks_ReadFile
    | apply locks_WriteFile
    | apply locks_emit; discriminate
    | eapply locks_bind; [|intros ?] ].

Lemma locks_PersistActiveLeases fileName m h :
  locks (PersistActiveLeases fileName m) h h.
Proof.
  unfold PersistActiveLeases. cbv zeta.
  eapply locks_bind; [apply locks_emit; discriminate|intros _].
  destruct (json_Marshal (snapshot m)); [|apply locks_ret].
  eapply locks_bind; [apply locks_WriteFile|intros [e|]].
  - eapply locks_bind; [apply locks_emit; discriminate|intros _].
    apply locks_ret.
  - apply locks_ret.
Qed.

Lemma locks_getLease d id : locks (getLease d id) false false.
Proof. unfold getLease. repeat locks_step. Qed.

Lemma locks_setLease d id l : locks (setLease d id l) false false.
Proof. unfold setLease. repeat locks_step. Qed.

Lemma locks_clearLease d id : locks (clearLease d id) false false.
Proof.
  unfold clearLease. cbv zeta.
  eapply locks_bind; [apply locks_Lock|intros _].
  eapply locks_bind; [apply locks_emit; discriminate|intros _].
  eapply locks_bind; [apply locks_PersistActiveLeases|intros [e|]].
  - repeat locks_step.
  - repeat locks_step.
Qed.

Lemma locks_LoadSavedLeases_loop timeout resendMax broadcast recs acc h :
  locks (LoadSavedLeases_loop timeout resendMax broadcast recs acc) h h.
Proof.
  revert acc. induction recs as [|lease rest IH]; intros acc; simpl.
  - apply locks_ret.
  - destruct (WithNetNSPath _ _) as [lnk|err]; [apply IH|].
    destruct (is_NSPathNotExistErr err); [|apply locks_ret].
    eapply locks_bind; [apply locks_emit; discriminate|intros _]. apply IH.
Qed.

Lemma locks_LoadSavedLeases leaseFile timeout resendMax broadcast h :
  locks (LoadSavedLeases leaseFile timeout resendMax broadcast) h h.
Proof.
  unfold LoadSavedLeases.
  eapply locks_bind; [apply locks_ReadFile|intros [file [e|]]].
  - apply locks_ret.
  - destruct (json_Unmarshal_leases file) as [recs perr].
    apply locks_LoadSavedLeases_loop.
Qed.

Lemma locks_newDHCP_loop ls dhcp : locks (newDHCP_loop ls dhcp) false false.
Proof.
  revert dhcp. induction ls as [|val rest IH]; intros dhcp; simpl.
  - apply locks_ret.
  - assert (locks
              (dhcp0 ← setLease dhcp (clientID val) val;
               _ ← emit (EvStartMaintaining val);
               match StartMaintaining val with
               | Some err =>
                   mret (inr (Errorf "failed to start maintaining lease: %v"
                                     [] err))
               | None => newDHCP_loop rest dhcp0
               end) false false) as Hkeep.
    { eapply locks_bind; [apply locks_setLease|intros dhcp0].
      eapply locks_bind; [apply locks_emit; discriminate|intros _].
      destruct (StartMaintaining val); [apply locks_ret|apply IH]. }
    destruct (decide (k8sPodName val ≠ "")); [|exact Hkeep].
    destruct (IsNotFound _).
    + eapply locks_bind; [apply locks_emit; discriminate|intros _]. apply IH.
    + destruct (Pods_Get _ _); [apply locks_ret|exact Hkeep].
Qed.

Lemma locks_newDHCP clientTimeout clientResendMax broadcast :
  locks (newDHCP clientTimeout clientResendMax broadcast) false false.
Proof.
  unfold newDHCP.
  eapply locks_bind; [apply locks_LoadSavedLeases|intros [loaded lerr]].
  cbv zeta.
  eapply locks_bind.
  { destruct lerr; [apply locks_emit; discriminate|apply locks_ret]. }
  intros _.
  eapply locks_bind; [apply locks_newDHCP_loop|intros [dhcp|e]].
  - eapply locks_bind; [apply locks_PersistActiveLeases|intros [e|]];
      apply locks_ret.
  - apply locks_ret.
Qed.

Lemma locks_Allocate d args result : locks (Allocate d args result) false false.
Proof.
  unfold Allocate.
  destruct (json_Unmarshal_conf _) as [conf|?]; [|apply locks_ret].
  destruct (LoadArgs _) as [ipamArgs|?]; [|apply locks_ret].
  destruct (prepareOptions _ _ _) as [[oR oP]|?]; [|apply locks_ret].
  cbv zeta.
  eapply locks_bind; [apply locks_emit; discriminate|intros _].
  destruct (AcquireLease _ _ _ _ _ _ _ _ _) as [l|?]; [|apply locks_ret].
  destruct (lease_IPNet l) as [ipn|?].
  - eapply locks_bind; [apply locks_setLease|intros d1].
    eapply locks_bind; [apply locks_PersistActiveLeases|intros [e|]].
    + eapply locks_bind; [apply locks_emit; discriminate|intros _].
      apply locks_ret.
    + apply locks_ret.
  - eapply locks_bind; [apply locks_emit; discriminate|intros _].
    apply locks_ret.
Qed.

Lemma locks_Release d args : locks (Release d args) false false.
Proof.
  unfold Release.
  destruct (json_Unmarshal_conf _) as [conf|?]; [|apply locks_ret].
  cbv zeta.
  eapply locks_bind; [apply locks_getLease|intros [l|]]; [|apply locks_ret].
  eapply locks_bind; [apply locks_emit; discriminate|intros _].
  eapply locks_bind; [apply locks_clearLease|intros d1]. apply locks_ret.
Qed.

(** X2. The daemon never locks its mutex while holding it and never leaves
    it locked: started with the mutex free, [Allocate], [Release] and
    [newDHCP] only append events to the trace, every lock they take is taken
    while the mutex is free and released before they return, whatever the
    environment answers. *)
Theorem daemon_operations_respect_the_mutex (d : DHCP) (w : World) :
  (∀ args result, ∃ evs,
     trace (Allocate d args result w).2 = trace w ++ evs ∧
     final_lock false evs = Some false) ∧
  (∀ args, ∃ evs,
     trace (Release d args w).2 = trace w ++ evs ∧
     final_lock false evs = Some false) ∧
  (∀ clientTimeout clientResendMax broadcast, ∃ evs,
     trace (newDHCP clientTimeout clientResendMax broadcast w).2
       = trace w ++ evs ∧
     final_lock false evs = Some false).
Proof.
  split_and!.
  - intros args result. apply locks_Allocate.
  - intros args. apply locks_Release.
  - intros ct crm b. apply locks_newDHCP.
Qed.

End MutexFacts.

(** *** Allocate and Release together *)

Section AllocateFacts.

Context `{env : Env}.


(** A lease that is registered and replaced by a successful [Allocate] is
    not stopped: the events of a successful [Allocate]. *)
Lemma Allocate_success_trace d args result w d' result' w' :
  Allocate d args result w = ((d', result', None), w') →
  ∃ id hostNetns l out,
    leases d' = <[id := l]> (leases d) ∧
    trace w' =
      trace w ++ [EvAcquireLease id hostNetns (IfName args);
                  EvLock; EvInsert id; EvUnlock;
                  EvPersist savedLeaseLocation (snapshot (leases d'))] ++ out ∧
    forallb is_output out = true.
Proof.
  intros Halloc.
  apply Allocate_success in Halloc
    as (conf & ipamArgs & oR & oP & l & ipn & _ & _ & _ & _ & _ & Hd' & _ & Hp).
  cbv zeta in *. set (id := generateClientID _ _ _) in *.
  set (w0 := add_trace w _) in Hp.
  destruct (PersistActiveLeases_trace savedLeaseLocation (leases d') w0)
    as (out & Htr & Hout).
  exists id, (hostNetnsPrefix d +:+ Netns args), l, out.
  split_and!; [by rewrite Hd'| |done].
  rewrite Hp in Htr. simpl in Htr. rewrite Htr. subst w0. simpl.
  by rewrite <- !app_assoc.
Qed.

(** X4. A successful [Allocate] registers the lease it acquired under the
    client id of its request, touches no other registry entry and stops no
    lease: the registry is the old one with the acquired lease inserted under
    [generateClientID] of the request, every other client id keeps its lease,
    the daemon's settings are unchanged, and a lease that was registered under
    that client id before is replaced without [Stop] being called on it or on
    any other lease. *)
Theorem Allocate_replaces_without_stopping (d : DHCP) (args : CmdArgs)
    (result : Result) (w : World) (d' : DHCP) (result' : Result) (w' : World) :
  Allocate d args result w = ((d', result', None), w') →
  ∃ conf ipamArgs optsRequesting optsProviding l out,
    json_Unmarshal_conf (StdinData args) = inl conf ∧
    LoadArgs (Args args) = inl ipamArgs ∧
    prepareOptions (Args args) (IPAM_ProvideOptions conf)
                   (IPAM_RequestOptions conf)
      = inl (optsRequesting, optsProviding) ∧
    let id := generateClientID (ContainerID args) (NetConf_Name conf)
                               (IfName args) in
    let hostNetns := hostNetnsPrefix d +:+ Netns args in
    let evs := [EvAcquireLease id hostNetns (IfName args);
                EvLock; EvInsert id; EvUnlock;
                EvPersist savedLeaseLocation (snapshot (leases d'))] ++ out in
    AcquireLease id hostNetns (IfName args) optsRequesting optsProviding
      ipamArgs (clientTimeout d) (clientResendMax d) (broadcast d) = inl l ∧
    d' = with_leases d (<[id := l]> (leases d)) ∧
    leases d' !! id = Some l ∧
    (∀ id', id' ≠ id → leases d' !! id' = leases d !! id') ∧
    hostNetnsPrefix d' = hostNetnsPrefix d ∧
    clientTimeout d' = clientTimeout d ∧
    clientResendMax d' = clientResendMax d ∧
    broadcast d' = broadcast d ∧
    length (IPs result') = 1 ∧
    trace w' = trace w ++ evs ∧
    forallb is_output out = true ∧
    ∀ old, EvStop old ∉ evs.
Proof.
  intros Halloc.
  destruct (Allocate_success _ _ _ _ _ _ _ Halloc)
    as (conf & ipamArgs & oR & oP & l & ipn & Hconf & Hargs & Hopts & Hacq
        & _ & Hd' & Hres & Hp).
  cbv zeta in *. set (id := generateClientID _ _ _) in *.
  set (w0 := add_trace w _) in Hp.
  destruct (PersistActiveLeases_trace savedLeaseLocation (leases d') w0)
    as (out & Htr & Hout).
  rewrite Hp in Htr. simpl in Htr.
  exists conf, ipamArgs, oR, oP, l, out.
  split_and!; try done.
  - rewrite Hd'. apply lookup_insert_eq.
  - intros id' Hne. rewrite Hd'. by apply lookup_insert_ne.
  - by rewrite Hd'.
  - by rewrite Hd'.
  - by rewrite Hd'.
  - by rewrite Hd'.
  - by rewrite Hres.
  - rewrite Htr. subst w0. simpl. by rewrite <- !app_assoc.
  - intros old Hin. rewrite elem_of_app in Hin.
    destruct Hin as [Hin|Hin].
    + repeat (apply elem_of_cons in Hin as [Hin|Hin]; [done|]).
      by apply elem_of_nil in Hin.
    + rewrite forallb_forall in Hout.
      apply list_elem_of_In in Hin. by apply Hout in Hin.
Qed.

(** X5. [Release] undoes [Allocate]: after a successful [Allocate], a
    [Release] of the same request returns no error, stops exactly the lease
    that [Allocate] registered, and leaves the registry without that client
    id; if the client id was not registered before the [Allocate], the
    registry is what it was then. *)
Theorem Release_undoes_Allocate (d : DHCP) (args : CmdArgs) (result : Result)
    (w : World) (d1 : DHCP) (result1 : Result) (w1 : World) :
  Allocate d args result w = ((d1, result1, None), w1) →
  ∃ id l d2 w2 out,
    leases d1 !! id = Some l ∧
    Release d1 args w1 = ((d2, None), w2) ∧
    leases d2 = delete id (leases d) ∧
    (leases d !! id = None → d2 = d) ∧
    trace w2 =
      trace w1 ++ [EvLock; EvUnlock; EvStop l; EvLock; EvDelete id;
                   EvPersist savedLeaseLocation (snapshot (leases d2))]
               ++ out ++ [EvUnlock] ∧
    forallb is_output out = true.
Proof.
  intros Halloc.
  apply Allocate_success in Halloc
    as (conf & ipamArgs & oR & oP & l & ipn & Hconf & _ & _ & _ & _ & Hd1 & _
        & _).
  cbv zeta in *. set (id := generateClientID _ _ _) in *.
  assert (leases d1 !! id = Some l) as Hl.
  { rewrite Hd1. apply lookup_insert_eq. }
  rewrite (Release_present_runs_clearLease _ _ _ _ _ Hconf Hl). cbv zeta.
  fold id.
  destruct (clearLease_trace d1 id (add_trace w1 [EvLock; EvUnlock; EvStop l]))
    as (out & Hd2 & Htr & Hout).
  eexists id, l, _, _, out. split_and!; [done|reflexivity| | | |done].
  - rewrite Hd2, Hd1. simpl. apply delete_insert_eq.
  - intros Habsent. rewrite Hd2, Hd1. unfold with_leases. simpl.
    rewrite delete_insert_eq, delete_id by done. by destruct d.
  - rewrite Htr, Hd2. simpl. by rewrite <- !app_assoc.
Qed.

End AllocateFacts.

(** *** Startup and the lease file *)

Section StartupFacts.

Context `{env : Env}.

Lemma insert_all_lookup ls (m : gmap string DHCPLease) id v :
  insert_all ls m !! id = Some v →
  (v ∈ ls ∧ clientID v = id) ∨ m !! id = Some v.
Proof.
  revert m. induction ls as [|val rest IH]; intros m Hv; [by right|].
  simpl in Hv. apply IH in Hv as [[Hin Hid]|Hv].
  - left. split; [apply elem_of_cons; by right|done].
  - destruct (decide (clientID val = id)) as [<-|Hne].
    + rewrite lookup_insert_eq in Hv. injection Hv as <-.
      left. split; [apply elem_of_cons; by left|done].
    + rewrite lookup_insert_ne in Hv by done. by right.
Qed.

Lemma insert_all_registered ls (m : gmap string DHCPLease) val :
  val ∈ ls → is_Some (insert_all ls m !! clientID val).
Proof.
  revert m. induction ls as [|val' rest IH]; intros m Hin.
  - by apply elem_of_nil in Hin.
  - simpl. apply elem_of_cons in Hin as [->|Hin]; [|by apply IH].
    clear IH. assert (is_Some (<[clientID val' := val']> m !! clientID val'))
      as Hsome by (rewrite lookup_insert_eq; eauto).
    revert Hsome. generalize (<[clientID val' := val']> m).
    induction rest as [|v rest IH]; intros m' Hsome; [done|].
    simpl. apply IH.
    destruct (decide (clientID v = clientID val')) as [Heq|Hne].
    + rewrite Heq, lookup_insert_eq. eauto.
    + by rewrite lookup_insert_ne.
Qed.

(** The world after [LoadSavedLeases]: the one before, with log lines. *)
Lemma LoadSavedLeases_loop_world timeout resendMax broadcast recs acc w :
  ∃ logs,
    (LoadSavedLeases_loop timeout resendMax broadcast recs acc w).2
      = add_trace w logs ∧
    forallb is_log logs = true.
Proof.
  revert acc w. induction recs as [|lease rest IH]; intros acc w; simpl.
  - exists []. by rewrite add_trace_nil.
  - destruct (WithNetNSPath _ _) as [lnk|err]; [apply IH|].
    destruct (is_NSPathNotExistErr err).
    + unfold mbind, M_bind, emit.
      match goal with
      | |- context [LoadSavedLeases_loop _ _ _ rest acc ?w1] =>
          destruct (IH acc w1) as (logs & Hl & Hlogs)
      end.
      exists (skip_log lease :: logs). rewrite Hl. unfold add_trace. simpl.
      by rewrite <- app_assoc.
    + exists []. by rewrite add_trace_nil.
Qed.

Lemma LoadSavedLeases_world leaseFile timeout resendMax broadcast w :
  ∃ logs,
    (LoadSavedLeases leaseFile timeout resendMax broadcast w).2
      = add_trace w logs ∧
    forallb is_log logs = true.
Proof.
  unfold LoadSavedLeases, ReadFile. run.
  destruct (files w !! leaseFile) as [file|].
  - destruct (json_Unmarshal_leases file) as [recs perr].
    apply LoadSavedLeases_loop_world.
  - exists []. by rewrite add_trace_nil.
Qed.

(** A daemon that [newDHCP] returns, in terms of what was loaded. *)
Lemma newDHCP_returns clientTimeout clientResendMax broadcast w dhcp w' :
  newDHCP clientTimeout clientResendMax broadcast w
    = ((Some dhcp, None), w') →
  ∃ loaded lerr logs evs,
    LoadSavedLeases savedLeaseLocation clientTimeout clientResendMax
      broadcast w = ((loaded, lerr), add_trace w logs) ∧
    dhcp = with_leases (empty_DHCP clientTimeout clientResendMax)
             (insert_all (List.filter kept_at_startup loaded) ∅) ∧
    PersistActiveLeases savedLeaseLocation (leases dhcp)
      (add_trace w (logs ++ evs)) = (None, w').
Proof.
  intros Hnew.
  destruct (LoadSavedLeases savedLeaseLocation clientTimeout clientResendMax
              broadcast w) as [[loaded lerr] w1] eqn:Hload.
  destruct (LoadSavedLeases_world savedLeaseLocation clientTimeout
              clientResendMax broadcast w) as (logs & Hw1 & _).
  rewrite Hload in Hw1. simpl in Hw1. subst w1.
  rewrite (newDHCP_after_load _ _ _ _ _ _ _ Hload) in Hnew.
  destruct (newDHCP_loop loaded _ _) as [[dhcp0|e] w2] eqn:Hloop; [|done].
  apply newDHCP_loop_completes in Hloop as (-> & -> & _).
  rewrite !add_trace_app in Hnew.
  destruct (PersistActiveLeases _ _ _) as [[e|] w3] eqn:Hp; [done|].
  injection Hnew as <- <-.
  eexists loaded, lerr, logs, _. split_and!; [done|done|].
  rewrite <- Hp. simpl. done.
Qed.

(** X6. The registry a daemon starts with.  Every entry of the registry that
    [newDHCP] returns is filed under the client id of its own lease and is one
    of the leases loaded from the file that reconciliation kept; and every
    loaded lease that was kept has its client id registered (with the last
    kept lease of that id). *)
Theorem newDHCP_registry_is_the_kept_leases
    (timeout resendMax : Duration) (bcast : bool)
    (w w1 w' : World) (loaded : list DHCPLease) (lerr : option error)
    (dhcp : DHCP) :
  LoadSavedLeases savedLeaseLocation timeout resendMax bcast w
    = ((loaded, lerr), w1) →
  newDHCP timeout resendMax bcast w = ((Some dhcp, None), w') →
  (∀ id v, leases dhcp !! id = Some v →
     clientID v = id ∧ v ∈ loaded ∧ kept_at_startup v = true) ∧
  (∀ v, v ∈ loaded → kept_at_startup v = true →
     is_Some (leases dhcp !! clientID v)) ∧
  hostNetnsPrefix dhcp = "" ∧ broadcast dhcp = false ∧
  clientTimeout dhcp = timeout ∧ clientResendMax dhcp = resendMax.
Proof.
  intros Hload Hnew.
  apply newDHCP_returns in Hnew as (loaded' & lerr' & logs & evs & Hload' & ->
                                    & _).
  rewrite Hload in Hload'. injection Hload' as <- <- _.
  simpl. split_and!; try done.
  - intros id v Hv. apply insert_all_lookup in Hv as [[Hin Hid]|Hv].
    + apply list_elem_of_In, filter_In in Hin as [Hin Hk].
      by apply list_elem_of_In in Hin.
    + by rewrite lookup_empty in Hv.
  - intros v Hin Hk. apply insert_all_registered.
    apply list_elem_of_In, filter_In. by apply list_elem_of_In in Hin.
Qed.

(** X7. A daemon that [newDHCP] returns has rewritten the lease file: when
    the write succeeds, the file holds exactly the records of the registry
    the daemon starts with, so that the records of leases dropped at startup
    are gone from the file. *)
Theorem newDHCP_rewrites_the_lease_file
    (clientTimeout clientResendMax : Duration) (broadcast : bool)
    (w w' : World) (dhcp : DHCP) :
  newDHCP clientTimeout clientResendMax broadcast w
    = ((Some dhcp, None), w') →
  write_fault w = None →
  file_reflects w' dhcp ∧
  ∃ b, json_Marshal (snapshot (leases dhcp)) = inl b ∧
       files w' = <[savedLeaseLocation := b]> (files w).
Proof.
  intros Hnew Hw.
  apply newDHCP_returns in Hnew as (loaded & lerr & logs & evs & _ & Hd & Hp).
  destruct (json_Marshal (snapshot (leases dhcp))) as [b|err] eqn:Hb.
  2:{ unfold PersistActiveLeases in Hp. revert Hp. run. by rewrite Hb. }
  destruct (PersistActiveLeases_writes savedLeaseLocation (leases dhcp)
              (add_trace w (logs ++ evs)) b Hb Hw) as (_ & Hfiles & _).
  rewrite Hp in Hfiles. simpl in Hfiles.
  split; [|by exists b].
  eapply snapshot_reflects; [exact Hb| |done].
  rewrite Hfiles. apply lookup_insert_eq.
Qed.

(** X8. When the lease file cannot be loaded, because it is missing or
    because [LoadSavedLeases] failed on an unresolved link, [newDHCP] logs
    the error and goes on with an empty registry, which it persists: when the
    empty registry serialises and the write succeeds, the daemon is returned
    without any lease and the lease file is replaced by the empty snapshot,
    whatever records it held. *)
Theorem newDHCP_load_failure_starts_empty
    (clientTimeout clientResendMax : Duration) (broadcast : bool)
    (w w1 : World) (loaded : list DHCPLease) (e : error) (b : string) :
  LoadSavedLeases savedLeaseLocation clientTimeout clientResendMax broadcast w
    = ((loaded, Some e), w1) →
  json_Marshal (snapshot ∅) = inl b →
  write_fault w = None →
  ∃ dhcp w',
    newDHCP clientTimeout clientResendMax broadcast w
      = ((Some dhcp, None), w') ∧
    leases dhcp = ∅ ∧
    files w' = <[savedLeaseLocation := b]> (files w) ∧
    EvPrintf "Failed to load leases: %v%n" [] (Some e) ∈ trace w'.
Proof.
  intros Hload Hb Hw.
  assert (loaded = []) as ->.
  { unfold LoadSavedLeases, ReadFile in Hload. revert Hload. run.
    destruct (files w !! savedLeaseLocation) as [file|]; [|congruence].
    destruct (json_Unmarshal_leases file) as [recs perr].
    apply LoadSavedLeases_loop_all_or_nothing. }
  destruct (LoadSavedLeases_world savedLeaseLocation clientTimeout
              clientResendMax broadcast w) as (logs & Hw1 & _).
  rewrite Hload in Hw1. simpl in Hw1. subst w1.
  rewrite (newDHCP_after_load _ _ _ _ _ _ _ Hload). simpl.
  unfold mret, M_ret. rewrite !add_trace_app.
  set (w2 := add_trace w _).
  destruct (PersistActiveLeases_writes savedLeaseLocation ∅ w2 b Hb Hw)
    as (Hnil & Hfiles & _).
  destruct (PersistActiveLeases_trace savedLeaseLocation ∅ w2)
    as (out & Htr & _).
  destruct (PersistActiveLeases savedLeaseLocation ∅ w2) as [err w3].
  simpl in *. subst err. eexists _, w3. split_and!; [done|done|done|].
  rewrite Htr. subst w2. simpl. rewrite !elem_of_app. left. right. right.
  apply elem_of_cons. by left.
Qed.

End StartupFacts.

(** *** What is loaded and what is persisted *)

Section LeaseFileFacts.

Context `{env : Env}.

Lemma LoadSavedLeases_loop_returns timeout resendMax broadcast recs acc w
    loaded w' :
  LoadSavedLeases_loop timeout resendMax broadcast recs acc w
    = ((loaded, None), w') →
  loaded = acc ++ survivors timeout resendMax broadcast recs ∧
  Forall (λ lease, netns_gone lease ∨ loadable lease) recs.
Proof.
  revert acc w. induction recs as [|lease rest IH]; intros acc w Hloop.
  - simpl in Hloop. unfold mret, M_ret in Hloop. injection Hloop as <- _.
    by rewrite app_nil_r.
  - simpl in Hloop. unfold WithNetNSPath in Hloop.
    unfold survivors. simpl. unfold resolve at 1.
    destruct (ns_GetNS (NetNs lease)) as [err|] eqn:Hns.
    + destruct err as [msg|msg|msg|f a c]; simpl in Hloop; try done.
      revert Hloop. run. intros Hloop.
      apply IH in Hloop as [-> Hall]. split; [done|].
      constructor; [|done]. left. by exists msg.
    + destruct (netlink_LinkByName (NetNs lease) (LinkName lease))
        as [lnk|err] eqn:Hlnk; simpl in Hloop; [|done].
      apply IH in Hloop as [-> Hall]. split.
      * by rewrite <- app_assoc.
      * constructor; [|done]. right. split; [done|]. by exists lnk.
Qed.

Lemma survivors_settings timeout resendMax bcast recs :
  Forall (λ v, DHCPLease_settings v = (timeout, resendMax, bcast))
         (survivors timeout resendMax bcast recs).
Proof.
  induction recs as [|lease rest IH]; [constructor|].
  unfold survivors. simpl. destruct (resolve lease); simpl; [|exact IH].
  by constructor.
Qed.

Lemma survivors_length timeout resendMax bcast recs :
  length (survivors timeout resendMax bcast recs) ≤ length recs.
Proof.
  induction recs as [|lease rest IH]; [done|].
  unfold survivors. simpl. destruct (resolve lease); simpl.
  - by apply le_n_S.
  - by apply le_S.
Qed.

(** X9. What [LoadSavedLeases] returns.  Without the file it returns an
    error and no lease.  When it returns without an error, every record of
    the file was either skipped for its missing namespace or loaded, the
    leases returned are exactly one per record whose namespace and link
    resolve, in file order, and each carries the timeout, resend limit and
    broadcast flag passed in.  In no case does it change the file system. *)
Theorem LoadSavedLeases_returns_the_resolved_records
    (leaseFile : string) (timeout resendMax : Duration) (bcast : bool)
    (w : World) :
  (files w !! leaseFile = None →
   ∃ e, LoadSavedLeases leaseFile timeout resendMax bcast w
        = (([], Some e), w)) ∧
  (∀ file recs perr loaded w',
     files w !! leaseFile = Some file →
     json_Unmarshal_leases file = (recs, perr) →
     LoadSavedLeases leaseFile timeout resendMax bcast w
       = ((loaded, None), w') →
     loaded = survivors timeout resendMax bcast recs ∧
     Forall (λ lease, netns_gone lease ∨ loadable lease) recs ∧
     Forall (λ v, DHCPLease_settings v = (timeout, resendMax, bcast)) loaded ∧
     length loaded ≤ length recs) ∧
  files (LoadSavedLeases leaseFile timeout resendMax bcast w).2 = files w ∧
  write_fault (LoadSavedLeases leaseFile timeout resendMax bcast w).2
    = write_fault w.
Proof.
  split_and!.
  - intros Hnone. unfold LoadSavedLeases, ReadFile. run. rewrite Hnone.
    by eexists.
  - intros file recs perr loaded w' Hfile Hdec Hload.
    rewrite (LoadSavedLeases_of_file _ _ _ _ _ _ _ _ Hfile Hdec) in Hload.
    apply LoadSavedLeases_loop_returns in Hload as [-> Hall]. simpl.
    split_and!; [done|done|apply survivors_settings|].
    apply survivors_length.
  - destruct (LoadSavedLeases_world leaseFile timeout resendMax bcast w)
      as (logs & -> & _). done.
  - destruct (LoadSavedLeases_world leaseFile timeout resendMax bcast w)
      as (logs & -> & _). done.
Qed.

Lemma persisted_of_reloaded lease lnk timeout resendMax bcast :
  Attrs_Name lnk = LinkName lease →
  persisted_of (reloaded_lease lease lnk timeout resendMax bcast) = lease.
Proof. intros Hname. destruct lease. unfold persisted_of. simpl in *.
       by rewrite Hname. Qed.

Lemma survivors_cons timeout resendMax bcast lease rest :
  survivors timeout resendMax bcast (lease :: rest) =
  match resolve lease with
  | Some lnk =>
      reloaded_lease lease lnk timeout resendMax bcast
        :: survivors timeout resendMax bcast rest
  | None => survivors timeout resendMax bcast rest
  end.
Proof. unfold survivors. simpl. by destruct (resolve lease). Qed.

Lemma resolve_Some lease lnk :
  resolve lease = Some lnk ↔
  ns_GetNS (NetNs lease) = None ∧
  netlink_LinkByName (NetNs lease) (LinkName lease) = inl lnk.
Proof.
  unfold resolve. destruct (ns_GetNS (NetNs lease)) as [err|].
  - split; [done|]. by intros [? _].
  - destruct (netlink_LinkByName _ _) as [lnk'|err].
    + split; [by intros [= ->]|]. by intros [_ [= ->]].
    + split; [done|]. by intros [_ ?].
Qed.

Lemma survivors_records timeout resendMax bcast recs :
  (∀ netns name lnk,
     netlink_LinkByName netns name = inl lnk → Attrs_Name lnk = name) →
  persisted_of <$> survivors timeout resendMax bcast recs `sublist_of` recs ∧
  (Forall loadable recs →
   persisted_of <$> survivors timeout resendMax bcast recs = recs).
Proof.
  intros Hname. induction recs as [|lease rest [IHsub IHall]]; [done|].
  rewrite survivors_cons. destruct (resolve lease) as [lnk|] eqn:Hres.
  - apply resolve_Some in Hres as [Hns Hlnk].
    rewrite fmap_cons, persisted_of_reloaded by (by eapply Hname). split.
    + by apply sublist_skip.
    + intros [_ Hrest]%Forall_cons. f_equal. by apply IHall.
  - split; [by apply sublist_cons|].
    intros [[Hns [lnk Hlnk]] _]%Forall_cons.
    assert (resolve lease = Some lnk) by (by apply resolve_Some). congruence.
Qed.

(** X10. Loading and persisting again gives back the records.  Provided a
    link found by name carries that name, the leases that [LoadSavedLeases]
    returns, turned into records as [PersistActiveLeases] does, are records of
    the file, in file order; and when every record of the file is loadable
    they are exactly the records of the file. *)
Theorem load_then_persist_roundtrip
    (leaseFile : string) (timeout resendMax : Duration) (bcast : bool)
    (w w' : World) (file : string) (recs : list PersistedLeased)
    (perr : option error) (loaded : list DHCPLease) :
  (∀ netns name lnk,
     netlink_LinkByName netns name = inl lnk → Attrs_Name lnk = name) →
  files w !! leaseFile = Some file →
  json_Unmarshal_leases file = (recs, perr) →
  LoadSavedLeases leaseFile timeout resendMax bcast w
    = ((loaded, None), w') →
  persisted_of <$> loaded `sublist_of` recs ∧
  (Forall loadable recs → persisted_of <$> loaded = recs).
Proof.
  intros Hname Hfile Hdec Hload.
  rewrite (LoadSavedLeases_of_file _ _ _ _ _ _ _ _ Hfile Hdec) in Hload.
  apply LoadSavedLeases_loop_returns in Hload as [-> _]. simpl.
  by apply survivors_records.
Qed.

(** X11. [PersistActiveLeases] writes one record per registry entry to its
    file and to nothing else: every other file is left as it was, the file
    itself is left as it was when serialisation or the write fails, and an
    error is returned exactly when serialisation fails. *)
Theorem PersistActiveLeases_touches_one_file (fileName : string)
    (m : gmap string DHCPLease) (w : World) :
  let r := PersistActiveLeases fileName m w in
  length (snapshot m) = size m ∧
  (∀ f, f ≠ fileName → files r.2 !! f = files w !! f) ∧
  (r.1 = None ↔ ∃ b, json_Marshal (snapshot m) = inl b) ∧
  (∀ b, json_Marshal (snapshot m) = inl b → write_fault w = None →
        files r.2 !! fileName = Some b) ∧
  ((write_fault w ≠ None ∨ ∃ e, json_Marshal (snapshot m) = inr e) →
   files r.2 = files w) ∧
  write_fault r.2 = write_fault w.
Proof.
  intros r. subst r. split_and!.
  - unfold snapshot. rewrite length_fmap, (Permutation_length
      (range_leases_perm m)). apply length_map_to_list.
  - intros f Hne. unfold PersistActiveLeases, WriteFile. run.
    destruct (json_Marshal (snapshot m)); run; [|done].
    destruct (write_fault w); run; [done|]. by apply lookup_insert_ne.
  - unfold PersistActiveLeases, WriteFile. run.
    destruct (json_Marshal (snapshot m)) as [b|e]; run.
    + destruct (write_fault w); run; split; eauto.
    + split; [done|]. by intros [b Hb].
  - intros b Hb Hw.
    destruct (PersistActiveLeases_writes fileName m w b Hb Hw)
      as (_ & -> & _). apply lookup_insert_eq.
  - intros Hfail. unfold PersistActiveLeases, WriteFile. run.
    destruct (json_Marshal (snapshot m)) as [b|e]; run; [|done].
    destruct (write_fault w); run; [done|].
    destruct Hfail as [Hw|[e He]]; done.
  - unfold PersistActiveLeases, WriteFile. run.
    destruct (json_Marshal (snapshot m)); run; [|done].
    by destruct (write_fault w).
Qed.

End LeaseFileFacts.

(** *** Client identifiers *)

Section ClientIDFacts.

Lemma slash_starts r : "/" +:+ r = String "/" r.
Proof. reflexivity. Qed.

Lemma split_at_first_slash s1 r1 s2 r2 :
  slash_free s1 = true → slash_free s2 = true →
  s1 +:+ "/" +:+ r1 = s2 +:+ "/" +:+ r2 →
  s1 = s2 ∧ r1 = r2.
Proof.
  rewrite !slash_starts. revert s2.
  induction s1 as [|c s1 IH]; intros [|c' s2] Hs1 Hs2 Heq.
  - by injection Heq as <-.
  - change (String "/" r1 = String c' (s2 +:+ String "/" r2)) in Heq.
    injection Heq as <- _. done.
  - change (String c (s1 +:+ String "/" r1) = String "/" r2) in Heq.
    injection Heq as -> _. done.
  - change (String c (s1 +:+ String "/" r1)
            = String c' (s2 +:+ String "/" r2)) in Heq.
    injection Heq as <- Heq. simpl in Hs1, Hs2.
    apply andb_prop in Hs1 as [_ Hs1]. apply andb_prop in Hs2 as [_ Hs2].
    destruct (IH s2 Hs1 Hs2 Heq) as [-> ->]. done.
Qed.

(** X12. Below the 254-byte limit the client id identifies the request:
    when container ids and network names contain no slash and neither
    logical id is longer than 254 bytes, two requests that get the same
    client id have the same container id, network name and interface
    name. *)
Theorem generateClientID_injective
    (containerID netName ifName containerID' netName' ifName' : string) :
  slash_free containerID = true → slash_free netName = true →
  slash_free containerID' = true → slash_free netName' = true →
  GoString.len (containerID +:+ "/" +:+ netName +:+ "/" +:+ ifName) ≤ 254 →
  GoString.len (containerID' +:+ "/" +:+ netName' +:+ "/" +:+ ifName') ≤ 254 →
  generateClientID containerID netName ifName
    = generateClientID containerID' netName' ifName' →
  containerID = containerID' ∧ netName = netName' ∧ ifName = ifName'.
Proof.
  intros Hc Hn Hc' Hn' Hlen Hlen'. unfold generateClientID.
  destruct (Nat.ltb_spec 254
              (GoString.len (containerID +:+ "/" +:+ netName +:+ "/" +:+ ifName)));
    [lia|].
  destruct (Nat.ltb_spec 254
              (GoString.len
                 (containerID' +:+ "/" +:+ netName' +:+ "/" +:+ ifName')));
    [lia|].
  intros Heq.
  apply split_at_first_slash in Heq as [-> Heq]; [|done..].
  apply split_at_first_slash in Heq as [-> ->]; done.
Qed.

End ClientIDFacts.

(** ** Further properties of the packet helpers *)

Section LeaseOpsFacts.

Import Dhcp4 Dhcp DhcpLeaseOps.

Lemma range_loop_stays_failed entries :
  foldl (λ acc kv, p ← acc; AddOption p kv.1 kv.2) (None : option Packet)
        entries = None.
Proof. induction entries as [|kv entries IH]; [done|]. simpl. exact IH. Qed.

(** Whenever the range loop finishes, the packet is the base packet with the
    options appended in range order. *)
Lemma range_AddOption_result order options packet q :
  range_AddOption order options packet = Some q →
  q = with_options packet (order options).
Proof.
  destruct packet as [|x packet].
  - unfold range_AddOption. destruct (order options) as [|kv entries].
    + by intros [= <-].
    + simpl. by rewrite range_loop_stays_failed.
  - rewrite range_AddOption_closed_form by done. by intros [= <-].
Qed.

Lemma PadToMinSize_shape p :
  minSize ≤ length (PadToMinSize p) ∧
  PadToMinSize p = p ++ repeat 0%Z (minSize - length p).
Proof.
  unfold PadToMinSize. destruct (Nat.ltb_spec (length p) minSize) as [Hlt|Hge].
  - split; [|done]. rewrite length_app, repeat_length. lia.
  - split; [done|]. replace (minSize - length p) with 0 by lia.
    by rewrite app_nil_r.
Qed.

(** X13. [DhcpRenew] reports success exactly when it returns no error.  A
    successful renewal returns a packet of message type ACK; a reply of
    another message type is returned with success=false and the error formatted
    from the reply's message option (unlike [DhcpRequest], which returns a nil
    error for it); every other failure passes on the error of the send or of
    the receive. *)
Theorem DhcpRenew_succeeds_iff_no_error (c : Client) (b : PacketBuilders)
    (acknowledgement : Packet) (options : Options) (order : RangeOrder)
    (ok : bool) (pkt : Packet) (err : option renew_error) :
  DhcpRenew c b acknowledgement options order = Some (ok, pkt, err) →
  (ok = true ↔ err = None) ∧
  (ok = true → message_type pkt = Some ACK) ∧
  (∀ format msg,
     err = Some (ServerResponded format msg) →
     format = "dhcp server responded: %s" ∧
     msg = default [] (ParseOptions pkt !! OptionMessage) ∧
     ∃ t, message_type pkt = Some t ∧ t ≠ ACK) ∧
  (∀ e,
     err = Some (Transport e) →
     SendPacket c pkt = Some e ∨
     ∃ renewRequest, GetAcknowledgement c renewRequest = (pkt, Some e)).
Proof.
  unfold DhcpRenew, message_type. intros Hrenew.
  destruct (range_AddOption _ _ _) as [q|]; simpl in Hrenew; [|done].
  destruct (SendPacket c (PadToMinSize q)) as [e|] eqn:Hsend.
  { injection Hrenew as <- <- <-. split_and!; try done.
    intros e' [= <-]. by left. }
  destruct (GetAcknowledgement c (PadToMinSize q)) as [reply [e|]] eqn:Hack.
  { injection Hrenew as <- <- <-. split_and!; try done.
    intros e' [= <-]. right. by exists (PadToMinSize q). }
  destruct (ParseOptions reply !! OptionDHCPMessageType) as [[|t ?]|] eqn:Ht;
    try done.
  destruct (decide (t ≠ ACK)) as [Hne|Heq]; injection Hrenew as <- <- <-.
  - rewrite Ht. split_and!; try done.
    intros format msg [= <- <-]. split_and!; [done|done|]. by exists t.
  - apply dec_stable in Heq. subst t. rewrite Ht. by split_and!.
Qed.

(** X14. What [DhcpSendDecline], [DhcpRenew] and [DhcpRelease] put on the
    wire.  Whenever [DhcpSendDecline] returns, the packet it returns is the
    one it sent: the Decline packet with the dictionary's options appended in
    range order, padded with zero bytes to at least the minimum length.
    [DhcpRelease] returns the outcome of sending the Release packet assembled
    and padded in the same way, and a [DhcpRenew] whose send fails returns the
    renewal request assembled and padded in the same way. *)
Theorem lease_helpers_send_padded_packets (c : Client) (b : PacketBuilders)
    (acknowledgement : Packet) (options : Options) (order : RangeOrder) :
  let sent base :=
    with_options base (order options)
      ++ repeat 0%Z (minSize - length (with_options base (order options))) in
  (∀ p e,
     DhcpSendDecline c b acknowledgement options order = Some (p, e) →
     p = sent (DeclinePacket b acknowledgement) ∧
     minSize ≤ length p ∧ e = SendPacket c p) ∧
  (∀ r,
     DhcpRelease c b acknowledgement options order = Some r →
     minSize ≤ length (sent (ReleasePacket b acknowledgement)) ∧
     r = SendPacket c (sent (ReleasePacket b acknowledgement))) ∧
  (∀ ok p e,
     DhcpRenew c b acknowledgement options order = Some (ok, p, e) →
     SendPacket c (sent (RenewalRequestPacket b acknowledgement)) ≠ None →
     ok = false ∧ p = sent (RenewalRequestPacket b acknowledgement) ∧
     minSize ≤ length p).
Proof.
  intros sent. split_and!.
  - intros p e. unfold DhcpSendDecline.
    destruct (range_AddOption _ _ _) as [q|] eqn:Hq; simpl; [|done].
    apply range_AddOption_result in Hq as ->. intros [= <- <-].
    destruct (PadToMinSize_shape
                (with_options (DeclinePacket b acknowledgement)
                   (order options))) as [Hmin Hshape].
    by rewrite Hshape in *.
  - intros r. unfold DhcpRelease.
    destruct (range_AddOption _ _ _) as [q|] eqn:Hq; simpl; [|done].
    apply range_AddOption_result in Hq as ->. intros [= <-].
    destruct (PadToMinSize_shape
                (with_options (ReleasePacket b acknowledgement)
                   (order options))) as [Hmin Hshape].
    by rewrite Hshape in *.
  - intros ok p e. unfold DhcpRenew.
    destruct (range_AddOption _ _ _) as [q|] eqn:Hq; simpl; [|done].
    apply range_AddOption_result in Hq as ->.
    destruct (PadToMinSize_shape
                (with_options (RenewalRequestPacket b acknowledgement)
                   (order options))) as [Hmin Hshape].
    rewrite Hshape in *. fold (sent (RenewalRequestPacket b acknowledgement)).
    destruct (SendPacket c (sent (RenewalRequestPacket b acknowledgement)));
      [|done].
    by intros [= <- <- <-] _.
Qed.

End LeaseOpsFacts.

(** ** Properties of the host side *)

Ltac hrun :=
  repeat (unfold mbind, HM_bind, mret, HM_ret, lift, LockOSThread, MkdirAll,
          Listen, Now, PatchStatus, Println, Serve, with_world; simpl).

(** A leaf of [runDaemon] that returns an error with nothing served. *)
Ltac refused Hserved :=
  split_and!;
  first
    [ done
    | by (split; [done|]; intros [? Hsome]; rewrite Hserved in Hsome)
    | by (intros ? ? Hsome; rewrite Hserved in Hsome)
    | by (intros; eexists; split_and!)
    | by (intros; congruence) ].

Section HostFacts.

Context `{env : Env} `{henv : HostEnv}.

(** [SetNodeIsOfflineState] reads the clock twice and then either fails to
    serialise the condition, or issues one patch and returns its outcome. *)
Lemma SetNodeIsOfflineState_effect clientset value h :
  let cond := node_condition value (metav1_Now (clock_reads h))
                (metav1_Now (S (clock_reads h))) in
  let clocked :=
    {| world := world h; thread_locked := thread_locked h; dirs := dirs h;
       listening := listening h; clock_reads := S (S (clock_reads h));
       patches := patches h; printed := printed h; served := served h |} in
  SetNodeIsOfflineState clientset value h =
  match json_Marshal_conditions [cond] with
  | inr err => (Some err, clocked)
  | inl raw =>
      (Nodes_PatchStatus clientset NODENAME (patch_of raw),
       {| world := world h; thread_locked := thread_locked h; dirs := dirs h;
          listening := listening h; clock_reads := S (S (clock_reads h));
          patches := patches h ++ [(clientset, NODENAME, patch_of raw)];
          printed := printed h; served := served h |})
  end.
Proof.
  unfold SetNodeIsOfflineState. hrun.
  by destruct (json_Marshal_conditions _).
Qed.

(** [newDHCP] returns either a daemon and no error, or an error and no
    daemon. *)
Lemma newDHCP_result_shape clientTimeout clientResendMax bcast w :
  (∃ dhcp, (newDHCP clientTimeout clientResendMax bcast w).1
           = (Some dhcp, None)) ∨
  (∃ e, (newDHCP clientTimeout clientResendMax bcast w).1 = (None, Some e)).
Proof.
  destruct (LoadSavedLeases savedLeaseLocation clientTimeout clientResendMax
              bcast w) as [[loaded lerr] w1] eqn:Hload.
  rewrite (newDHCP_after_load _ _ _ _ _ _ _ Hload).
  destruct (newDHCP_loop loaded _ _) as [[dhcp|e] w2]; [|by right; exists e].
  destruct (PersistActiveLeases _ _ _) as [[e|] w3].
  - right. by exists e.
  - left. by eexists.
Qed.

(** X15. [getListener] either adopts or listens.  A listener it returns is
    either the single listener inherited through socket activation, adopted
    without any effect on the host, or, when none was inherited, the one
    obtained by listening on the socket path after making its directory.
    Whenever a listener was inherited or socket activation failed, the host is
    left untouched, and two or more inherited listeners are always refused.
    In no case is the daemon's world touched. *)
Theorem getListener_adopts_or_listens (socketPath : string) (h : Host) :
  let r := getListener socketPath h in
  (∀ l, r.1 = inl l →
     (activation_Listeners = ([Some l], None) ∧ r.2 = h) ∨
     (activation_Listeners = ([], None) ∧
      os_MkdirAll (filepath_Dir socketPath) = None ∧
      net_Listen socketPath = inl l ∧
      dirs r.2 = dirs h ++ [filepath_Dir socketPath] ∧
      listening r.2 = listening h ++ [socketPath])) ∧
  (activation_Listeners.1 ≠ [] ∨ activation_Listeners.2 ≠ None → r.2 = h) ∧
  (2 ≤ length activation_Listeners.1 → ∃ e, r.1 = inr e) ∧
  world r.2 = world h ∧ patches r.2 = patches h ∧ served r.2 = served h.
Proof.
  unfold getListener.
  destruct activation_Listeners as [ls [e|]]; simpl.
  { split_and!; try done. intros _. by eexists. }
  destruct ls as [|[l0|] [|l1 rest]]; simpl; hrun.
  - destruct (os_MkdirAll (filepath_Dir socketPath)) as [e|] eqn:Hmk; hrun;
      [|destruct (net_Listen socketPath) as [l|e] eqn:Hl; hrun].
    + split_and!; try done; try (intros; lia).
    + split_and!; try done; try (intros; lia); try (by intros [?|?]).
      intros l' [= <-]. right. by split_and!.
    + split_and!; try done; try (intros; lia); try (by intros [?|?]).
  - split_and!; try done; try (intros; lia). intros l [= <-]. by left.
  - split_and!; try done; try (intros; lia); try (intros _; by eexists).
  - split_and!; try done; try (intros; lia); try (intros _; by eexists).
  - split_and!; try done; try (intros; lia); try (intros _; by eexists).
Qed.

(** X16. [shutdown] never fails and does at most one thing: it posts the
    network-unavailable condition with status True, through a client with a
    two-second timeout, for the node named by NODENAME.  Outside a cluster
    it does nothing at all, not even log; when the client cannot be built it
    only logs; when the condition cannot be serialised or the patch fails it
    logs as well.  It never touches the file system or the RPC server. *)
Theorem shutdown_posts_unavailable_or_logs (h : Host) :
  let h' := (shutdown h).2 in
  files (world h') = files (world h) ∧ served h' = served h ∧
  dirs h' = dirs h ∧ listening h' = listening h ∧
  (∀ e, rest_InClusterConfig = inr e → h' = h) ∧
  (∀ config,
     rest_InClusterConfig = inl config →
     let clientset := {| Config_Host := Config_Host config;
                         Config_Timeout := (2 * 1000000000)%Z |} in
     let cond := node_condition true (metav1_Now (clock_reads h))
                   (metav1_Now (S (clock_reads h))) in
     Condition_Type cond = "NetworkUnavailable" ∧
     Condition_Status cond = "True" ∧
     match kubernetes_NewForConfig clientset with
     | Some e =>
         patches h' = patches h ∧
         trace (world h') =
           trace (world h)
             ++ [EvPrintf "failed to connect to Kubernetes: %v" [] (Some e)]
     | None =>
         match json_Marshal_conditions [cond] with
         | inr e =>
             patches h' = patches h ∧
             trace (world h') =
               trace (world h)
                 ++ [EvPrintf "failed to connect to Kubernetes: %v" []
                              (Some e)]
         | inl raw =>
             patches h' = patches h ++ [(clientset, NODENAME, patch_of raw)] ∧
             trace (world h') =
               trace (world h)
                 ++ match Nodes_PatchStatus clientset NODENAME (patch_of raw)
                    with
                    | Some e =>
                        [EvPrintf "failed to connect to Kubernetes: %v" []
                                  (Some e)]
                    | None => []
                    end
         end
     end).
Proof.
  unfold shutdown.
  destruct rest_InClusterConfig as [config|e0]; [|by split_and!].
  set (clientset := {| Config_Host := _; Config_Timeout := _ |}).
  destruct (kubernetes_NewForConfig clientset) as [e|] eqn:Hcs.
  { hrun. split_and!; try done. intros config' [= <-]. cbv zeta.
    fold clientset. rewrite Hcs. by split_and!. }
  unfold mbind, HM_bind.
  rewrite SetNodeIsOfflineState_effect. cbv zeta.
  destruct (json_Marshal_conditions _) as [raw|e] eqn:Hraw.
  - destruct (Nodes_PatchStatus clientset NODENAME (patch_of raw)) as [e|]
      eqn:Hpatch; hrun; simpl in Hraw.
    + split_and!; try done. intros config' [= <-]. cbv zeta. simpl.
      fold clientset. rewrite ?Hcs, ?Hraw, ?Hpatch. by split_and!.
    + split_and!; try done. intros config' [= <-]. cbv zeta. simpl.
      fold clientset. rewrite ?Hcs, ?Hraw, ?Hpatch.
      split_and!; try done. by rewrite app_nil_r.
  - hrun. simpl in Hraw. split_and!; try done. intros config' [= <-].
    cbv zeta. simpl. fold clientset. rewrite ?Hcs, ?Hraw. by split_and!.
Qed.

(** [getListener] touches nothing but the directories made and the socket
    paths listened on. *)
Lemma getListener_frame socketPath h :
  let h' := (getListener socketPath h).2 in
  world h' = world h ∧ thread_locked h' = thread_locked h ∧
  clock_reads h' = clock_reads h ∧ patches h' = patches h ∧
  printed h' = printed h ∧ served h' = served h.
Proof.
  unfold getListener.
  destruct activation_Listeners as [ls [e|]]; simpl; [done|].
  destruct ls as [|[l0|] [|l1 rest]]; simpl; hrun; try done.
  destruct (os_MkdirAll (filepath_Dir socketPath)); hrun; [done|].
  by destruct (net_Listen socketPath).
Qed.

(** X17. [runDaemon] serves only a daemon that is fully started.  It never
    dereferences a missing daemon object, and it returns nil exactly when it
    has run the RPC server.  A pidfile path that is not absolute is refused
    before anything is written, listened on or posted.  The RPC server is run
    only after the thread was pinned, the pidfile, if asked for, was written,
    the listener obtained, [newDHCP] returned a daemon, and the node was
    posted as available with a patch that succeeded; the daemon served is the
    one [newDHCP] built, with the host prefix and the broadcast flag of the
    command line. *)
Theorem runDaemon_serves_only_after_startup
    (pidfilePath hostPrefix socketPath : string)
    (timeout resendMax : Duration) (bcast : bool) (h : Host) :
  served h = None →
  let r := runDaemon pidfilePath hostPrefix socketPath timeout resendMax bcast h
  in
  r.1 ≠ Panics ∧
  thread_locked r.2 = true ∧
  (r.1 = Returns None ↔ is_Some (served r.2)) ∧
  (pidfilePath ≠ "" → filepath_IsAbs pidfilePath = false →
   ∃ e, r.1 = Returns (Some e) ∧ world r.2 = world h ∧ dirs r.2 = dirs h ∧
        listening r.2 = listening h ∧ patches r.2 = patches h) ∧
  (∀ l dhcp,
     served r.2 = Some (l, dhcp) →
     hostNetnsPrefix dhcp = hostPrefix ∧ broadcast dhcp = bcast ∧
     (pidfilePath ≠ "" → filepath_IsAbs pidfilePath = true) ∧
     (∃ w0 d0,
        newDHCP timeout resendMax bcast w0 = ((Some d0, None), world r.2) ∧
        leases dhcp = leases d0 ∧
        files w0 = (if decide (pidfilePath ≠ "")
                    then <[pidfilePath := pid_text]> (files (world h))
                    else files (world h))) ∧
     (∃ config raw t1 t2,
        rest_InClusterConfig = inl config ∧
        json_Marshal_conditions [node_condition false t1 t2] = inl raw ∧
        Nodes_PatchStatus config NODENAME (patch_of raw) = None ∧
        patches r.2 = patches h ++ [(config, NODENAME, patch_of raw)]) ∧
     printed r.2 = printed h ++ ["Daemon ready to receive requests"]).
Proof.
  intros Hserved r. subst r. unfold runDaemon. hrun.
  assert (Htail : ∀ w1 : World,
    files w1 = (if decide (pidfilePath ≠ "")
                then <[pidfilePath := pid_text]> (files (world h))
                else files (world h)) →
    (pidfilePath ≠ "" → filepath_IsAbs pidfilePath = true) →
    ∀ h1, world h1 = w1 → thread_locked h1 = true → served h1 = None →
      patches h1 = patches h → printed h1 = printed h →
    ∀ r, r = match rest_InClusterConfig with
      | inr err =>
          mret (Returns (Some (Wrapped
                  "couldn't get Kubernetes cluster config: %v" []
                  (Passed err))))
      | inl config =>
      match kubernetes_NewForConfig config with
      | Some err =>
          mret (Returns (Some (Wrapped
                  "couldn't create Kubernetes client: %v" [] (Passed err))))
      | None =>
          l ← getListener (hostPrefix +:+ socketPath);
          match l with
          | inr e =>
              mret (Returns (Some (Wrapped "Error getting listener: %v" [] e)))
          | inl l =>
              '(dhcp, err) ← lift (newDHCP timeout resendMax bcast);
              match err with
              | Some e => mret (Returns (Some (Passed e)))
              | None =>
                  match dhcp with
                  | None => mret Panics
                  | Some dhcp =>
                      let dhcp := {| leases := leases dhcp;
                                     hostNetnsPrefix := hostPrefix;
                                     clientTimeout := clientTimeout dhcp;
                                     clientResendMax := clientResendMax dhcp;
                                     broadcast := bcast |} in
                      err ← SetNodeIsOfflineState config false;
                      match err with
                      | Some e => mret (Returns (Some (Passed e)))
                      | None =>
                          _ ← Println "Daemon ready to receive requests";
                          _ ← Serve l dhcp;
                          mret (Returns None)
                      end
                  end
              end
          end
      end
      end h1 →
    r.1 ≠ Panics ∧ thread_locked r.2 = true ∧
    (r.1 = Returns None ↔ is_Some (served r.2)) ∧
    (∀ l dhcp, served r.2 = Some (l, dhcp) →
       hostNetnsPrefix dhcp = hostPrefix ∧ broadcast dhcp = bcast ∧
       (pidfilePath ≠ "" → filepath_IsAbs pidfilePath = true) ∧
       (∃ w0 d0, newDHCP timeout resendMax bcast w0
                 = ((Some d0, None), world r.2) ∧
          leases dhcp = leases d0 ∧
          files w0 = (if decide (pidfilePath ≠ "")
                      then <[pidfilePath := pid_text]> (files (world h))
                      else files (world h))) ∧
       (∃ config raw t1 t2, rest_InClusterConfig = inl config ∧
          json_Marshal_conditions [node_condition false t1 t2] = inl raw ∧
          Nodes_PatchStatus config NODENAME (patch_of raw) = None ∧
          patches r.2 = patches h ++ [(config, NODENAME, patch_of raw)]) ∧
       printed r.2 = printed h ++ ["Daemon ready to receive requests"])).
  { intros w1 Hfiles Hpidok h1 Hw1 Hlock Hnone Hpat Hprn r ->.
    destruct rest_InClusterConfig as [config|e] eqn:Hcfg; hrun;
      [|refused Hnone].
    destruct (kubernetes_NewForConfig config) eqn:Hcs; hrun;
      [refused Hnone|].
    match goal with
    | |- context [getListener ?sp ?hh] =>
        pose proof (getListener_frame sp hh) as Hgl;
        destruct (getListener sp hh) as [[l|e] h2]
    end; simpl in Hgl; destruct Hgl as (Hw & Ht & Hc & Hp & Hpr & Hs);
      hrun; rewrite ?Hw, ?Ht, ?Hc, ?Hp, ?Hpr, ?Hs, ?Hlock; [|refused Hnone].
    match goal with
    | |- context [newDHCP ?a ?b ?c ?ww] =>
        pose proof (newDHCP_result_shape a b c ww) as Hshape;
        destruct (newDHCP a b c ww) as [[dhcp err] w3] eqn:Hnew
    end.
    destruct Hshape as [[d0 Hd0]|[e Hd0]]; simpl in Hd0;
      injection Hd0 as -> ->; hrun;
      rewrite ?Hw, ?Ht, ?Hc, ?Hp, ?Hpr, ?Hs, ?Hlock; [|refused Hnone].
    rewrite SetNodeIsOfflineState_effect. cbv zeta. simpl.
    destruct (json_Marshal_conditions _) as [raw|e] eqn:Hraw; hrun;
      rewrite ?Hlock; [|refused Hnone].
    destruct (Nodes_PatchStatus config NODENAME (patch_of raw)) eqn:Hpatch;
      hrun; rewrite ?Hlock; [refused Hnone|].
    split_and!; [done|done|by split; [eexists|]|].
    intros l0 dhcp [= <- <-]. simpl.
    split_and!; [done|done|done| | |by rewrite Hprn].
    - exists w1, d0. split_and!; [by rewrite <- Hw1|done|done].
    - exists config, raw. eexists _, _.
      split_and!; [done|exact Hraw|exact Hpatch|by rewrite Hpat]. }
  destruct (decide (pidfilePath ≠ "")) as [Hpid|Hpid]; hrun.
  - destruct (filepath_IsAbs pidfilePath) eqn:Habs; hrun.
    + unfold WriteFile. destruct (write_fault (world h)) eqn:Hwf; hrun.
      * refused Hserved.
      * match goal with
        | |- context [match rest_InClusterConfig with _ => _ end ?hh] =>
            edestruct (Htail (world hh) eq_refl (λ _, eq_refl) hh)
              as (H1 & H2 & H3 & H4); [done..|reflexivity|]
        end.
        split_and!; [exact H1|exact H2|exact H3|by intros|exact H4].
    + refused Hserved.
  - match goal with
    | |- context [match rest_InClusterConfig with _ => _ end ?hh] =>
        edestruct (Htail (world hh) eq_refl (λ Hn, False_ind _ (Hpid Hn)) hh)
          as (H1 & H2 & H3 & H4); [done..|reflexivity|]
    end.
    split_and!; [exact H1|exact H2|exact H3|by intros|exact H4].
Qed.

End HostFacts.

(** ** The properties on the concrete node *)

Section RunFacts.

Import Node NodeHost Dhcp4 Dhcp DhcpLeaseOps NodeRuns.
#[local] Existing Instance Node.node.
#[local] Existing Instance NodeHost.node_host.

Local Open Scope Z_scope.
Local Open Scope nat_scope.


Lemma Allocate_replaces_without_stopping_witness :
  leases crowded !! "c1/mynet/eth0" = Some stale_lease ∧
  replacing_allocation.1.2 = None ∧
  leases replacing_allocation.1.1.1 !! "c1/mynet/eth0" = Some lease1 ∧
  leases replacing_allocation.1.1.1 !! "c2/mynet/eth0" = Some lease2 ∧
  ∃ conf ipamArgs optsRequesting optsProviding l out,
    json_Unmarshal_conf (StdinData args1) = inl conf ∧
    LoadArgs (Args args1) = inl ipamArgs ∧
    prepareOptions (Args args1) (IPAM_ProvideOptions conf)
                   (IPAM_RequestOptions conf)
      = inl (optsRequesting, optsProviding) ∧
    let id := generateClientID (ContainerID args1) (NetConf_Name conf)
                               (IfName args1) in
    let hostNetns := hostNetnsPrefix crowded +:+ Netns args1 in
    let evs := [EvAcquireLease id hostNetns (IfName args1);
                EvLock; EvInsert id; EvUnlock;
                EvPersist savedLeaseLocation
                  (snapshot (leases replacing_allocation.1.1.1))] ++ out in
    AcquireLease id hostNetns (IfName args1) optsRequesting optsProviding
      ipamArgs (clientTimeout crowded) (clientResendMax crowded)
      (broadcast crowded) = inl l ∧
    replacing_allocation.1.1.1
      = with_leases crowded (<[id := l]> (leases crowded)) ∧
    leases replacing_allocation.1.1.1 !! id = Some l ∧
    (∀ id', id' ≠ id →
       leases replacing_allocation.1.1.1 !! id' = leases crowded !! id') ∧
    hostNetnsPrefix replacing_allocation.1.1.1 = hostNetnsPrefix crowded ∧
    clientTimeout replacing_allocation.1.1.1 = clientTimeout crowded ∧
    clientResendMax replacing_allocation.1.1.1 = clientResendMax crowded ∧
    broadcast replacing_allocation.1.1.1 = broadcast crowded ∧
    length (IPs replacing_allocation.1.1.2) = 1 ∧
    trace replacing_allocation.2 = trace fresh ++ evs ∧
    forallb is_output out = true ∧
    ∀ old, EvStop old ∉ evs.
Proof.
  split; [vm_compute; reflexivity|]. split; [vm_compute; reflexivity|].
  split; [vm_compute; reflexivity|]. split; [vm_compute; reflexivity|].
  apply (Allocate_replaces_without_stopping (env := node) crowded args1
           no_result fresh).
  vm_compute. reflexivity.
Defined.

Lemma Release_undoes_Allocate_witness :
  first_allocation.1.2 = None ∧
  ∃ id l d2 w2 out,
    leases first_allocation.1.1.1 !! id = Some l ∧
    Release first_allocation.1.1.1 args1 first_allocation.2
      = ((d2, None), w2) ∧
    leases d2 = delete id (leases (daemon ∅)) ∧
    (leases (daemon ∅) !! id = None → d2 = daemon ∅) ∧
    trace w2 =
      trace first_allocation.2
        ++ [EvLock; EvUnlock; EvStop l; EvLock; EvDelete id;
            EvPersist savedLeaseLocation (snapshot (leases d2))]
        ++ out ++ [EvUnlock] ∧
    forallb is_output out = true.
Proof.
  split; [vm_compute; reflexivity|].
  apply (Release_undoes_Allocate (env := node) (daemon ∅) args1 no_result
           fresh _ first_allocation.1.1.2).
  vm_compute. reflexivity.
Defined.

Lemma newDHCP_registry_is_the_kept_leases_witness :
  (reload "[c1,c2]").1 = ([lease1; lease2], None) ∧
  ∃ dhcp,
    (restart "[c1,c2]").1 = (Some dhcp, None) ∧
    (∀ id v, leases dhcp !! id = Some v →
       clientID v = id ∧ v ∈ [lease1; lease2] ∧ kept_at_startup v = true) ∧
    (∀ v, v ∈ [lease1; lease2] → kept_at_startup v = true →
       is_Some (leases dhcp !! clientID v)) ∧
    hostNetnsPrefix dhcp = "" ∧ broadcast dhcp = false ∧
    clientTimeout dhcp = 10%Z ∧ clientResendMax dhcp = 62%Z.
Proof.
  split; [vm_compute; reflexivity|].
  exists (daemon {[ "c1/mynet/eth0" := lease1 ]}).
  split; [vm_compute; reflexivity|].
  apply (newDHCP_registry_is_the_kept_leases (env := node) 10%Z 62%Z false
           (restarted "[c1,c2]") (reload "[c1,c2]").2 (restart "[c1,c2]").2
           [lease1; lease2] None);
    vm_compute; reflexivity.
Defined.

Lemma newDHCP_rewrites_the_lease_file_witness :
  (restart "[c1,c2]").1 = (Some (daemon {[ "c1/mynet/eth0" := lease1 ]}), None) ∧
  files (restarted "[c1,c2]") !! savedLeaseLocation = Some "[c1,c2]" ∧
  file_reflects (restart "[c1,c2]").2 (daemon {[ "c1/mynet/eth0" := lease1 ]}) ∧
  ∃ b, json_Marshal (snapshot (leases (daemon {[ "c1/mynet/eth0" := lease1 ]})))
         = inl b ∧
       files (restart "[c1,c2]").2
         = <[savedLeaseLocation := b]> (files (restarted "[c1,c2]")).
Proof.
  split; [vm_compute; reflexivity|]. split; [vm_compute; reflexivity|].
  apply (newDHCP_rewrites_the_lease_file (env := node) 10%Z 62%Z false
           (restarted "[c1,c2]"));
    vm_compute; reflexivity.
Defined.

Lemma newDHCP_load_failure_starts_empty_witness :
  (∃ e, (reload "[c1,c2/net9]").1 = ([], Some e)) ∧
  ∃ dhcp w',
    newDHCP 10%Z 62%Z false (restarted "[c1,c2/net9]")
      = ((Some dhcp, None), w') ∧
    leases dhcp = ∅ ∧
    files w' = <[savedLeaseLocation := "null"]> (files (restarted "[c1,c2/net9]")) ∧
    EvPrintf "Failed to load leases: %v%n" []
      (Some (Errorf "couldn't look up link '%s' in container netns '%s': %v"
               ["net9"; "/var/run/netns/c2"]
               (Errorf "error looking up %q: %v" ["net9"]
                  (LibError "Link not found"))))
      ∈ trace w'.
Proof.
  split; [eexists; vm_compute; reflexivity|].
  apply (newDHCP_load_failure_starts_empty (env := node) 10%Z 62%Z false
           (restarted "[c1,c2/net9]") (reload "[c1,c2/net9]").2 []);
    vm_compute; reflexivity.
Defined.

Lemma load_then_persist_roundtrip_witness :
  (reload "[c1,c2]").1 = ([lease1; lease2], None) ∧
  persisted_of <$> [lease1; lease2] `sublist_of` [rec1; rec2] ∧
  (Forall loadable [rec1; rec2] →
   persisted_of <$> [lease1; lease2] = [rec1; rec2]).
Proof.
  split; [vm_compute; reflexivity|].
  apply (load_then_persist_roundtrip (env := node) savedLeaseLocation 10%Z 62%Z
           false (restarted "[c1,c2]") (reload "[c1,c2]").2 "[c1,c2]"
           [rec1; rec2] None [lease1; lease2]).
  - intros netns name lnk. simpl. unfold node_LinkByName.
    destruct (decide (name = "eth0")) as [->|]; [|discriminate].
    intros [= <-]. reflexivity.
  - vm_compute. reflexivity.
  - vm_compute. reflexivity.
  - vm_compute. reflexivity.
Defined.

Lemma generateClientID_injective_witness :
  generateClientID "c1" "mynet" "eth0" = "c1/mynet/eth0" ∧
  ("c1" = "c1" ∧ "mynet" = "mynet" ∧ "eth0" = "eth0").
Proof.
  split; [vm_compute; reflexivity|].
  apply (generateClientID_injective "c1" "mynet" "eth0" "c1" "mynet" "eth0");
    vm_compute; first [reflexivity | lia].
Defined.

Lemma DhcpRenew_succeeds_iff_no_error_witness :
  ∃ pkt,
    DhcpRenew (client_of nak) builders ack1 two_options ascending
      = Some (false, pkt,
              Some (ServerResponded "dhcp server responded: %s" [110; 111]%Z)) ∧
    (false = true ↔
       Some (ServerResponded "dhcp server responded: %s" [110; 111]%Z)
         = None) ∧
    (false = true → message_type pkt = Some ACK) ∧
    (∀ format msg,
       Some (ServerResponded "dhcp server responded: %s" [110; 111]%Z)
         = Some (ServerResponded format msg) →
       format = "dhcp server responded: %s" ∧
       msg = default [] (ParseOptions pkt !! OptionMessage) ∧
       ∃ t, message_type pkt = Some t ∧ t ≠ ACK) ∧
    (∀ e,
       Some (ServerResponded "dhcp server responded: %s" [110; 111]%Z)
         = Some (Transport e) →
       SendPacket (client_of nak) pkt = Some e ∨
       ∃ renewRequest,
         GetAcknowledgement (client_of nak) renewRequest = (pkt, Some e)).
Proof.
  exists nak.
  split; [vm_compute; reflexivity|].
  apply (DhcpRenew_succeeds_iff_no_error (client_of nak) builders ack1
           two_options ascending).
  vm_compute. reflexivity.
Defined.

Lemma runDaemon_serves_only_after_startup_witness :
  served (booting (restarted "[c1,c2]")) = None ∧
  boot.1 = Returns None ∧
  (boot.1 ≠ Panics ∧
   thread_locked boot.2 = true ∧
   (boot.1 = Returns None ↔ is_Some (served boot.2)) ∧
   ("/run/dhcp.pid" ≠ "" → filepath_IsAbs "/run/dhcp.pid" = false →
    ∃ e, boot.1 = Returns (Some e) ∧
         world boot.2 = world (booting (restarted "[c1,c2]")) ∧
         dirs boot.2 = dirs (booting (restarted "[c1,c2]")) ∧
         listening boot.2 = listening (booting (restarted "[c1,c2]")) ∧
         patches boot.2 = patches (booting (restarted "[c1,c2]"))) ∧
   (∀ l dhcp,
      served boot.2 = Some (l, dhcp) →
      hostNetnsPrefix dhcp = "/host" ∧ broadcast dhcp = true ∧
      ("/run/dhcp.pid" ≠ "" → filepath_IsAbs "/run/dhcp.pid" = true) ∧
      (∃ w0 d0,
         newDHCP 10%Z 62%Z true w0 = ((Some d0, None), world boot.2) ∧
         leases dhcp = leases d0 ∧
         files w0 = (if decide ("/run/dhcp.pid" ≠ "")
                     then <[ "/run/dhcp.pid" := pid_text]>
                            (files (world (booting (restarted "[c1,c2]"))))
                     else files (world (booting (restarted "[c1,c2]"))))) ∧
      (∃ config raw t1 t2,
         rest_InClusterConfig = inl config ∧
         json_Marshal_conditions [node_condition false t1 t2] = inl raw ∧
         Nodes_PatchStatus config NODENAME (patch_of raw) = None ∧
         patches boot.2
           = patches (booting (restarted "[c1,c2]"))
               ++ [(config, NODENAME, patch_of raw)]) ∧
      printed boot.2
        = printed (booting (restarted "[c1,c2]"))
            ++ ["Daemon ready to receive requests"])).
Proof.
  split; [reflexivity|]. split; [vm_compute; reflexivity|].
  apply (runDaemon_serves_only_after_startup (env := node)
           (henv := node_host) "/run/dhcp.pid" "/host" "/run/cni/dhcp.sock"
           10%Z 62%Z true (booting (restarted "[c1,c2]"))).
  reflexivity.
Defined.

Lemma registry_set_get_clear_witness :
  (getLease (setLease (daemon ∅) "c1/mynet/eth0" lease1 fresh).1
     "c1/mynet/eth0" fresh).1 = Some lease1 ∧
  (getLease (setLease (daemon ∅) "c1/mynet/eth0" lease1 fresh).1
     "c2/mynet/eth0" fresh).1 = None ∧
  (clearLease (daemon ∅) "c1/mynet/eth0" fresh).1 = daemon ∅.
Proof.
  destruct (registry_set_get_clear (env := node) (daemon ∅) "c1/mynet/eth0"
              lease1 fresh fresh) as (Hset & _ & Hother & Habsent & _).
  split; [exact Hset|]. split.
  - destruct (Hother "c2/mynet/eth0") as [-> _]; [discriminate|].
    vm_compute. reflexivity.
  - apply Habsent. reflexivity.
Defined.

Lemma LoadSavedLeases_returns_the_resolved_records_witness :
  (∃ e, LoadSavedLeases savedLeaseLocation 10%Z 62%Z false fresh
        = (([], Some e), fresh)) ∧
  [lease1; lease2] = survivors 10%Z 62%Z false [rec1; rec2] ∧
  Forall (λ lease, netns_gone lease ∨ loadable lease) [rec1; rec2] ∧
  Forall (λ v, DHCPLease_settings v = (10%Z, 62%Z, false)) [lease1; lease2] ∧
  length [lease1; lease2] ≤ length [rec1; rec2].
Proof.
  split.
  - apply (LoadSavedLeases_returns_the_resolved_records (env := node)
             savedLeaseLocation 10%Z 62%Z false fresh).
    reflexivity.
  - destruct (LoadSavedLeases_returns_the_resolved_records (env := node)
                savedLeaseLocation 10%Z 62%Z false (restarted "[c1,c2]"))
      as (_ & Hloaded & _).
    apply (Hloaded "[c1,c2]" [rec1; rec2] None [lease1; lease2]
             (reload "[c1,c2]").2);
      vm_compute; reflexivity.
Defined.

Lemma PersistActiveLeases_touches_one_file_witness :
  files (PersistActiveLeases savedLeaseLocation {[ "c1/mynet/eth0" := lease1 ]}
           fresh).2 !! savedLeaseLocation = Some "[c1]" ∧
  files (PersistActiveLeases savedLeaseLocation {[ "c1/mynet/eth0" := lease1 ]}
           read_only).2 = files read_only.
Proof.
  split.
  - destruct (PersistActiveLeases_touches_one_file (env := node)
                savedLeaseLocation {[ "c1/mynet/eth0" := lease1 ]} fresh)
      as (_ & _ & _ & Hwritten & _).
    apply Hwritten; vm_compute; reflexivity.
  - destruct (PersistActiveLeases_touches_one_file (env := node)
                savedLeaseLocation {[ "c1/mynet/eth0" := lease1 ]} read_only)
      as (_ & _ & _ & _ & Hkept & _).
    apply Hkept. left. discriminate.
Defined.

Lemma lease_helpers_send_padded_packets_witness :
  ∃ p,
    DhcpSendDecline (client_of nak) builders ack1 two_options ascending
      = Some (p, None) ∧
    p = with_options (DeclinePacket builders ack1) (ascending two_options)
          ++ repeat 0%Z
               (minSize - length (with_options (DeclinePacket builders ack1)
                                    (ascending two_options))) ∧
    minSize ≤ length p ∧ None = SendPacket (client_of nak) p.
Proof.
  eexists. split; [vm_compute; reflexivity|].
  destruct (lease_helpers_send_padded_packets (client_of nak) builders ack1
              two_options ascending) as (Hdecline & _).
  apply Hdecline. vm_compute. reflexivity.
Defined.

Lemma getListener_adopts_or_listens_witness :
  (getListener "/host/run/cni/dhcp.sock" (booting fresh)).1
    = inl "/host/run/cni/dhcp.sock" ∧
  ((activation_Listeners = ([Some "/host/run/cni/dhcp.sock"], None) ∧
    (getListener "/host/run/cni/dhcp.sock" (booting fresh)).2 = booting fresh) ∨
   (activation_Listeners = ([], None) ∧
    os_MkdirAll (filepath_Dir "/host/run/cni/dhcp.sock") = None ∧
    net_Listen "/host/run/cni/dhcp.sock" = inl "/host/run/cni/dhcp.sock" ∧
    dirs (getListener "/host/run/cni/dhcp.sock" (booting fresh)).2
      = dirs (booting fresh) ++ [filepath_Dir "/host/run/cni/dhcp.sock"] ∧
    listening (getListener "/host/run/cni/dhcp.sock" (booting fresh)).2
      = listening (booting fresh) ++ ["/host/run/cni/dhcp.sock"])).
Proof.
  split; [reflexivity|].
  destruct (getListener_adopts_or_listens (henv := node_host)
              "/host/run/cni/dhcp.sock" (booting fresh)) as (Hlistener & _).
  apply Hlistener. reflexivity.
Defined.

Lemma shutdown_posts_unavailable_or_logs_witness :
  patches (shutdown (booting fresh)).2
    = [({| Config_Host := Config_Host in_cluster;
           Config_Timeout := (2 * 1000000000)%Z |}, "node-1",
        patch_of "[NetworkUnavailable=True]")] ∧
  trace (world (shutdown (booting fresh)).2) = [].
Proof.
  destruct (shutdown_posts_unavailable_or_logs (henv := node_host)
              (booting fresh)) as (_ & _ & _ & _ & _ & Hposted).
  destruct (Hposted in_cluster eq_refl) as (_ & _ & Hpatch).
  exact Hpatch.
Defined.

End RunFacts.
